(** * server.js: the session store and the conversation relay

    A shallow embedding of [src/server.js]: the process-wide [sessions]
    object, the periodic sweep installed with [setInterval], the upstream
    call [callGemini] and the [POST /api/ai] handler.

    The handler is asynchronous: it runs synchronously up to
    [await callGemini([...history])], is suspended while the upstream call is
    in flight, and is resumed with the outcome of that call.  The embedding
    therefore splits it in two functions, [handler_begin] and
    [handler_resume], and puts the arrays the handler shares with the store
    in an explicit heap, so that aliasing between the stored history and the
    array handed to the upstream call is visible.  The server is then a
    transition system whose events are an arriving request, an upstream call
    that settles, and a tick of the sweep timer.

    Outside the model: the HTTP framework, rate limiting, the health
    endpoint, and the upstream service, which appears only through the way
    [axios.post] settles. *)

From Stdlib Require Import ZArith Strings.Byte.
From stdpp Require Import gmap strings list fin_maps.

Set Warnings "-register-all".

Open Scope string_scope.
Open Scope list_scope.
Open Scope Z_scope.

(** ** JavaScript values *)

(** The values that reach the handler from outside: fields of a parsed JSON
    body and the body of the upstream response.  [JUndefined] is the result
    of reading a property that is not there.  Numbers are only ever tested
    for being zero (truthiness) by this program, so an integer stands for
    them. *)
Inductive jsval :=
  | JUndefined
  | JNull
  | JBool (b : bool)
  | JNum (n : Z)
  | JStr (s : string)
  | JArr (items : list jsval)
  | JObj (fields : list (string * jsval)).

(** [!!v] *)
Definition truthy (v : jsval) : bool :=
  match v with
  | JUndefined | JNull => false
  | JBool b => b
  | JNum n => negb (n =? 0)
  | JStr s => negb (String.eqb s "")
  | JArr _ | JObj _ => true
  end.

Definition nullish (v : jsval) : bool :=
  match v with
  | JUndefined | JNull => true
  | _ => false
  end.

(** Own property of an object literal or parsed JSON object, whose [fields]
    list each property once. *)
Fixpoint own_prop (fields : list (string * jsval)) (k : string) : jsval :=
  match fields with
  | [] => JUndefined
  | (k', v) :: rest => if String.eqb k' k then v else own_prop rest k
  end.

(** [v.k] for the data property names this program reads from upstream data
    ([candidates], [content], [parts], [text]); none of them is defined by a
    built-in prototype, so only objects answer.  The caller checks for
    [null] and [undefined] first. *)
Definition get_prop (v : jsval) (k : string) : jsval :=
  match v with
  | JObj fields => own_prop fields k
  | _ => JUndefined
  end.

(** [v[0]]: first element of an array, first character of a string, the
    property ["0"] of an object. *)
Definition get_index0 (v : jsval) : jsval :=
  match v with
  | JArr (x :: _) => x
  | JStr (String c _) => JStr (String c "")
  | JObj fields => own_prop fields "0"
  | _ => JUndefined
  end.

(** [v?.k] and [v?.[0]] *)
Definition opt_prop (v : jsval) (k : string) : jsval :=
  if nullish v then JUndefined else get_prop v k.

Definition opt_index0 (v : jsval) : jsval :=
  if nullish v then JUndefined else get_index0 v.

(** ** Base64, as [Buffer.prototype.toString('base64')] *)

Definition base64_alphabet : string :=
  "ABCDEFGHIJKLMNOPQRSTUVWXYZabcdefghijklmnopqrstuvwxyz0123456789+/".

Definition sextet (n : Z) : string :=
  match String.get (Z.to_nat (Z.land n 63)) base64_alphabet with
  | Some c => String c ""
  | None => ""
  end.

Definition byteZ (b : byte) : Z := Z.of_N (Byte.to_N b).

Fixpoint base64 (buffer : list byte) : string :=
  match buffer with
  | [] => ""
  | [a] =>
      let n := Z.shiftl (byteZ a) 16 in
      sextet (Z.shiftr n 18) +:+ sextet (Z.shiftr n 12) +:+ "=="
  | [a; b] =>
      let n := Z.lor (Z.shiftl (byteZ a) 16) (Z.shiftl (byteZ b) 8) in
      sextet (Z.shiftr n 18) +:+ sextet (Z.shiftr n 12) +:+
      sextet (Z.shiftr n 6) +:+ "="
  | a :: b :: c :: rest =>
      let n := Z.lor (Z.lor (Z.shiftl (byteZ a) 16) (Z.shiftl (byteZ b) 8))
                     (byteZ c) in
      sextet (Z.shiftr n 18) +:+ sextet (Z.shiftr n 12) +:+
      sextet (Z.shiftr n 6) +:+ sextet n +:+ base64 rest
  end.

(** ** Turns, sessions and the store *)

Inductive Role := user | assistant.

(** One element of a history array: [{ role, parts }].  A user turn's
    [parts] is the array the handler builds; an assistant turn's [parts] is
    whatever [aiResponse.parts] evaluated to. *)
Record turn := Turn { role : Role; parts : jsval }.

(** Arrays live in a heap and are named by their index in it. *)
Abbreviation loc := nat.

(** A session object: [{ history, lastActive }]. *)
Record session := Session { history : loc; lastActive : Z }.

(** The state of the process.
    - [sessions]: the own properties of the [sessions] object;
    - [arrays]: the heap of arrays of turns (histories and the copies made
      by [[...history]]); arrays are never freed;
    - [proto_lastActive]: [Object.prototype.lastActive], which the handler
      can set through the key ["__proto__"] (see [getOrCreate]). *)
Record state := State {
  sessions : gmap string session;
  arrays : list (list turn);
  proto_lastActive : option Z
}.

Definition initial : state :=
  {| sessions := ∅; arrays := []; proto_lastActive := None |}.

Definition SESSION_EXPIRY : Z := 30 * 60 * 1000.

(** *** Heap operations *)

(** [a.push(t)] on the array at [l]. *)
Definition push (l : loc) (t : turn) (σ : state) : state :=
  {| sessions := sessions σ;
     arrays := alter (λ a, a ++ [t]) l (arrays σ);
     proto_lastActive := proto_lastActive σ |}.

(** A new array with the given elements: [[]] and [[...a]]. *)
Definition alloc (a : list turn) (σ : state) : state * loc :=
  ({| sessions := sessions σ;
      arrays := arrays σ ++ [a];
      proto_lastActive := proto_lastActive σ |},
   length (arrays σ)).

Definition read (l : loc) (σ : state) : list turn :=
  default [] (arrays σ !! l).

(** The turns of the session stored under [sessionId], none if there is no
    such session. *)
Definition history_of (σ : state) (sessionId : string) : list turn :=
  match sessions σ !! sessionId with
  | Some s => read (history s) σ
  | None => []
  end.

(** ** The expiry sweep (lines 37-44) *)

(** One iteration of the [forEach] callback.  [sessions[sessionId]] is
    an own property here, since the key comes from [Object.keys]; were it
    missing, reading [.lastActive] would throw ([None]). *)
Definition sweep_one (now : Z) (sessionId : string)
    (m : gmap string session) : option (gmap string session) :=
  match m !! sessionId with
  | Some s =>
      if bool_decide (lastActive s < now - SESSION_EXPIRY)
      then Some (delete sessionId m)
      else Some m
  | None => None
  end.

Fixpoint sweep_keys (now : Z) (keys : list string)
    (m : gmap string session) : option (gmap string session) :=
  match keys with
  | [] => Some m
  | sessionId :: rest =>
      match sweep_one now sessionId m with
      | Some m' => sweep_keys now rest m'
      | None => None
      end
  end.

(** [Object.keys(sessions)]: the own keys, each once. *)
Definition Object_keys (m : gmap string session) : list string :=
  (map_to_list m).*1.

Definition sweep (now : Z) (σ : state) : option state :=
  match sweep_keys now (Object_keys (sessions σ)) (sessions σ) with
  | Some m =>
      Some {| sessions := m; arrays := arrays σ;
              proto_lastActive := proto_lastActive σ |}
  | None => None
  end.

(** The test of line 40, and how long a session has been idle. *)
Definition expired (now : Z) (s : session) : Prop :=
  lastActive s < now - SESSION_EXPIRY.

#[global] Instance expired_dec now s : Decision (expired now s) :=
  Z_lt_dec (lastActive s) (now - SESSION_EXPIRY).

Definition idle (now : Z) (s : session) : Z := now - lastActive s.

(** ** The upstream call (lines 47-59) *)

(** How [axios.post] settles.  It rejects on a network error, on the 30 s
    timeout and on a status outside 2xx; otherwise it resolves with the
    response, whose [data] is the parsed body (or the raw text, as a string,
    when the body is not JSON). *)
Inductive axios_outcome :=
  | NetworkError
  | TimedOut
  | BadStatus (code : Z)
  | Resolved (data : jsval).

Inductive exn :=
  | Error (message : string)  (* [new Error(message)] *)
  | TypeError.                (* raised by the runtime on a bad property access *)

Definition fallback : jsval :=
  JObj [("parts", JArr [JObj [("text", JStr "No response from AI.")]])].

(** [response.data?.candidates?.[0]?.content] *)
Definition first_content (data : jsval) : jsval :=
  opt_prop (opt_index0 (opt_prop data "candidates")) "content".

Definition callGemini (o : axios_outcome) : exn + jsval :=
  match o with
  | Resolved data =>
      let content := first_content data in
      inr (if truthy content then content else fallback)
  | NetworkError | TimedOut | BadStatus _ =>
      inl (Error "Failed to get AI response")
  end.

(** ** The request handler (lines 62-105) *)

(** [req.file] as multer leaves it. *)
Record upload := Upload { mimetype : string; buffer : list byte }.

(** What the handler reads of a request whose body was parsed:
    [req.body.prompt], [req.body.sessionId] and [req.file].  [sessionId] is
    the property key the supplied value converts to, [None] when the field
    is absent. *)
Record request := Request {
  prompt : jsval;
  sessionId : option string;
  file : option upload
}.

(** What arrives at the handler.
    - [Parsed]: the body parsers left an object in [req.body], and the
      session id in it, if any, converts to a property key.
    - [Unkeyable]: [req.body] is an object, but its [sessionId] is a value
      whose conversion to a property key throws (an object without a
      callable [toString] or [valueOf]); [sessions[sessionId]] at line 72
      then throws.
    - [NoBody]: [req.body] is [undefined], as Express 5 leaves it when no
      parser handled the request; the destructuring of line 64 throws.
      There is no file then, since multer defines [req.body] whenever it
      parses an upload. *)
Inductive incoming :=
  | Parsed (req : request)
  | Unkeyable (p : jsval) (f : option upload)
  | NoBody.

Coercion Parsed : request >-> incoming.

(** The three ways the handler answers.  In [Reply200] the value may be
    [JUndefined]: [res.json] then sends a body without a [response]
    property. *)
Inductive reply :=
  | Reply400                  (* [{ error: 'Either text or image is required' }] *)
  | Reply200 (response : jsval) (* [{ response }] *)
  | Reply500 (error : exn).   (* [{ error: error.message, details }] *)

Definition status (r : reply) : Z :=
  match r with
  | Reply400 => 400
  | Reply200 _ => 200
  | Reply500 _ => 500
  end.

(** *** Reading [sessions[sessionId]] *)

(** [sessions] is an ordinary object, so a key that is not an own property
    is looked up on [Object.prototype]. *)
Definition Object_prototype_keys : list string :=
  [ "constructor"; "__defineGetter__"; "__defineSetter__"; "hasOwnProperty";
    "__lookupGetter__"; "__lookupSetter__"; "isPrototypeOf";
    "propertyIsEnumerable"; "toString"; "valueOf"; "__proto__";
    "toLocaleString" ].

Inductive slot :=
  | SlotSession (s : session)  (* an own property: a session object *)
  | SlotBuiltin (k : string)   (* inherited: a built-in function, or
                                  [Object.prototype] itself for ["__proto__"] *)
  | SlotNumber (n : Z)         (* inherited [Object.prototype.lastActive] *)
  | SlotUndefined.

Definition get_slot (σ : state) (k : string) : slot :=
  match sessions σ !! k with
  | Some s => SlotSession s
  | None =>
      if bool_decide (k ∈ Object_prototype_keys) then SlotBuiltin k
      else if String.eqb k "lastActive" then
        match proto_lastActive σ with
        | Some n => SlotNumber n
        | None => SlotUndefined
        end
      else SlotUndefined
  end.

Definition slot_truthy (s : slot) : bool :=
  match s with
  | SlotSession _ | SlotBuiltin _ => true
  | SlotNumber n => negb (n =? 0)
  | SlotUndefined => false
  end.

(** [sessions[k].lastActive = now].  On a session it updates the session;
    on [Object.prototype] it defines the property there; on a built-in
    function it defines a property nothing reads; on a number it has no
    effect (the file is not in strict mode).  Line 78 never finds
    [undefined] there, since lines 72-77 have just filled a falsy slot
    ([slot_defined_after_init]). *)
Definition set_lastActive (k : string) (now : Z) (σ : state) : state :=
  match get_slot σ k with
  | SlotSession s =>
      {| sessions := <[k := {| history := history s; lastActive := now |}]>
                       (sessions σ);
         arrays := arrays σ;
         proto_lastActive := proto_lastActive σ |}
  | SlotBuiltin b =>
      if String.eqb b "__proto__"
      then {| sessions := sessions σ; arrays := arrays σ;
              proto_lastActive := Some now |}
      else σ
  | SlotNumber _ | SlotUndefined => σ
  end.

(** [sessions[k].history]: [None] stands for [undefined]. *)
Definition get_history (σ : state) (k : string) : option loc :=
  match get_slot σ k with
  | SlotSession s => Some (history s)
  | _ => None
  end.

(** Lines 72-79: initialise or update the session, and fetch its history.
    [created] and [now] are the two readings of [Date.now()]. *)
Definition getOrCreate (created now : Z) (k : string) (σ : state)
    : state * option loc :=
  let σ1 :=
    if negb (slot_truthy (get_slot σ k)) then
      let '(σ', h) := alloc [] σ in
      {| sessions := <[k := {| history := h; lastActive := created |}]>
                        (sessions σ');
         arrays := arrays σ';
         proto_lastActive := proto_lastActive σ' |}
    else σ in
  let σ2 := set_lastActive k now σ1 in
  (σ2, get_history σ2 k).

(** Lines 81-91: the user turn. *)
Definition newContent (req : request) : turn :=
  {| role := user;
     parts := JArr
       ((if truthy (prompt req) then [JObj [("text", prompt req)]] else []) ++
        match file req with
        | Some image =>
            [JObj [("inlineData",
                    JObj [("mimeType", JStr (mimetype image));
                          ("data", JStr (base64 (buffer image)))])]]
        | None => []
        end) |}.

(** Where the handler stands when it stops running: it has replied, or it
    waits for [callGemini], holding its [history] array while the upstream
    request holds [payload]. *)
Inductive progress :=
  | Done (r : reply)
  | Await (history payload : loc).

(** The guard of line 67, negated: a truthy prompt or a file came in. *)
Definition supplied (req : request) : bool :=
  truthy (prompt req) || bool_decide (is_Some (file req)).

Definition the_sessionId (req : request) : string :=
  default "default" (sessionId req).

(** Lines 63-94, up to the [await].  An exception thrown on the way is
    caught at line 98 and answered with status 500. *)
Definition handler_begin (created now : Z) (inc : incoming) (σ : state)
    : state * progress :=
  match inc with
  | NoBody => (σ, Done (Reply500 TypeError))      (* line 64 throws *)
  | Unkeyable p f =>
      if negb (truthy p) && negb (bool_decide (is_Some f))
      then (σ, Done Reply400)
      else (σ, Done (Reply500 TypeError))         (* line 72 throws *)
  | Parsed req =>
      if negb (truthy (prompt req)) && negb (bool_decide (is_Some (file req)))
      then (σ, Done Reply400)
      else
        let '(σ1, h) := getOrCreate created now (the_sessionId req) σ in
        match h with
        | None => (σ1, Done (Reply500 TypeError)) (* [history.push] on undefined *)
        | Some h =>
            let σ2 := push h (newContent req) σ1 in
            let '(σ3, payload) := alloc (read h σ2) σ2 in
            (σ3, Await h payload)
        end
  end.

Arguments handler_begin : simpl never.

(** Lines 94-104, from the point where [callGemini] settles. *)
Definition handler_resume (h : loc) (o : axios_outcome) (σ : state)
    : state * reply :=
  match callGemini o with
  | inl e => (σ, Reply500 e)
  | inr aiResponse =>
      let ps := get_prop aiResponse "parts" in
      let σ1 := push h {| role := assistant; parts := ps |} σ in
      if nullish ps then (σ1, Reply500 TypeError)
      else
        let p0 := get_index0 ps in
        if nullish p0 then (σ1, Reply500 TypeError)
        else (σ1, Reply200 (get_prop p0 "text"))
  end.

(** One call served without interleaving: the handler runs to the [await],
    the upstream call settles as [o], the handler runs to its end.  The
    third component is the request payload the upstream call was given. *)
Definition relay (created now : Z) (inc : incoming) (o : axios_outcome)
    (σ : state) : state * reply * option (list turn) :=
  match handler_begin created now inc σ with
  | (σ1, Done r) => (σ1, r, None)
  | (σ1, Await h payload) =>
      let '(σ2, r) := handler_resume h o σ1 in
      (σ2, r, Some (read payload σ1))
  end.

(** ** The server as a transition system *)

(** A handler suspended at the [await]: the array it will push the
    assistant turn to, and the array the upstream request was given. *)
Record pending := Pending { p_history : loc; p_payload : loc }.

Record server := Server { st : state; inflight : list pending }.

Inductive event :=
  | Arrive (created now : Z) (inc : incoming) (* a [POST /api/ai] comes in *)
  | Settle (i : nat) (o : axios_outcome)      (* the [i]-th upstream call settles *)
  | Tick (now : Z).                           (* the timer fires *)

(** One turn of the event loop.  [None] stands for an exception nobody
    catches, which ends the process. *)
Definition step (ev : event) (s : server) : option (server * option reply) :=
  match ev with
  | Arrive created now inc =>
      match handler_begin created now inc (st s) with
      | (σ, Done r) => Some ({| st := σ; inflight := inflight s |}, Some r)
      | (σ, Await h p) =>
          Some ({| st := σ; inflight := inflight s ++ [Pending h p] |}, None)
      end
  | Settle i o =>
      match inflight s !! i with
      | Some p =>
          let '(σ, r) := handler_resume (p_history p) o (st s) in
          Some ({| st := σ; inflight := delete i (inflight s) |}, Some r)
      | None => Some (s, None)
      end
  | Tick now =>
      match sweep now (st s) with
      | Some σ => Some ({| st := σ; inflight := inflight s |}, None)
      | None => None
      end
  end.

Fixpoint run (evs : list event) (s : server) : option server :=
  match evs with
  | [] => Some s
  | ev :: rest =>
      match step ev s with
      | Some (s', _) => run rest s'
      | None => None
      end
  end.

(** The server when the process starts. *)
Definition boot : server := {| st := initial; inflight := [] |}.

(** *** Calls served one after the other *)

Record call := Call {
  c_created : Z;
  c_now : Z;
  c_req : request;
  c_outcome : axios_outcome
}.

Definition relay_call (c : call) (σ : state)
    : state * reply * option (list turn) :=
  relay (c_created c) (c_now c) (c_req c) (c_outcome c) σ.

(** Serves the calls in order; returns the final state and, per call, the
    reply and the upstream payload. *)
Fixpoint serve (calls : list call) (σ : state)
    : state * list (reply * option (list turn)) :=
  match calls with
  | [] => (σ, [])
  | c :: rest =>
      let '(σ1, r, p) := relay_call c σ in
      let '(σ2, out) := serve rest σ1 in
      (σ2, (r, p) :: out)
  end.

(** The assistant turn line 95 pushes when the upstream call settled as
    [o] without being rejected. *)
Definition aiResponse_parts (o : axios_outcome) : jsval :=
  match callGemini o with
  | inr aiResponse => get_prop aiResponse "parts"
  | inl _ => JUndefined
  end.

Definition assistant_turn (o : axios_outcome) : turn :=
  {| role := assistant; parts := aiResponse_parts o |}.

(** *** Shapes of upstream data *)

(** A parsed JSON object that carries no candidate: the [candidates]
    property is missing, [null] or an empty array. *)
Definition no_candidates (data : jsval) : bool :=
  match data with
  | JObj fields =>
      match own_prop fields "candidates" with
      | JUndefined | JNull | JArr [] => true
      | _ => false
      end
  | _ => false
  end.

(** *** Invariants of the heap *)

(** [l] is the history array of a stored session. *)
Definition session_at (σ : state) (l : loc) : Prop :=
  ∃ k x, sessions σ !! k = Some x ∧ history x = l.

(** [l] is an array some handler can still push to. *)
Definition is_history (s : server) (l : loc) : Prop :=
  session_at (st s) l ∨ ∃ p, p ∈ inflight s ∧ p_history p = l.

(** Histories are allocated, and no two sessions share one. *)
Definition wf_state (σ : state) : Prop :=
  (∀ l, session_at σ l → (l < length (arrays σ))%nat) ∧
  (∀ k k' x x', sessions σ !! k = Some x → sessions σ !! k' = Some x' →
                history x = history x' → k = k').

Definition wf (s : server) : Prop :=
  wf_state (st s) ∧
  (∀ p, p ∈ inflight s → (p_history p < length (arrays (st s)))%nat).

(** An allocated array nothing pushes to any more. *)
Definition frozen (s : server) (l : loc) : Prop :=
  (l < length (arrays (st s)))%nat ∧ ¬ is_history s l.

(** *** Further vocabulary for the statements *)

(** [axios.post] rejected: there is no response to read. *)
Definition rejects (o : axios_outcome) : bool :=
  match o with
  | Resolved _ => false
  | NetworkError | TimedOut | BadStatus _ => true
  end.

(** The assistant turn pushed when the fallback object stands in. *)
Definition fallback_turn : turn :=
  {| role := assistant;
     parts := JArr [JObj [("text", JStr "No response from AI.")]] |}.

(** A text fragment is an object with a string under [text]. *)
Definition is_text_fragment (v : jsval) : bool :=
  match get_prop v "text" with
  | JStr _ => true
  | _ => false
  end.

(** Follows the specification's wording, not the code: "the first text
    fragment" of a content block is the text of the first element of its
    parts that is a text fragment.  It is compared with what line 97
    returns. *)
Fixpoint spec_first_text_fragment (items : list jsval) : jsval :=
  match items with
  | [] => JUndefined
  | v :: rest =>
      if is_text_fragment v then get_prop v "text"
      else spec_first_text_fragment rest
  end.

(** *** Sample inputs *)

Definition say (text : string) (k : option string) : request :=
  {| prompt := JStr text; sessionId := k; file := None |}.

(** An upstream response body with one candidate whose content block has
    the given parts. *)
Definition candidate (ps : list jsval) : jsval :=
  JObj [("candidates",
         JArr [JObj [("content",
                      JObj [("role", JStr "model"); ("parts", JArr ps)])]])].

Definition answers (text : string) : axios_outcome :=
  Resolved (candidate [JObj [("text", JStr text)]]).

(** A store with one session, last active at time 0. *)
Definition one_session : state :=
  {| sessions := {[ "s" := {| history := 0%nat; lastActive := 0 |} ]};
     arrays := [[]];
     proto_lastActive := None |}.


(** The server after the given events, from [boot]. *)
Definition after (evs : list event) : server := default boot (run evs boot).

(** Parts of a content block that starts with an image and goes on with
    a text. *)
Definition picture_then_text : list jsval :=
  [ JObj [("inlineData",
           JObj [("mimeType", JStr "image/png"); ("data", JStr "iVBORw0K")])];
    JObj [("text", JStr "A picture")] ].

(** A call whose upstream response carries no candidate. *)
Definition unanswered : call :=
  {| c_created := 1; c_now := 2; c_req := say "Hello" None;
     c_outcome := Resolved (JObj [("candidates", JArr [])]) |}.

Definition asked_again : call :=
  {| c_created := 3; c_now := 4; c_req := say "Anyone?" None;
     c_outcome := answers "Here" |}.

(** The state after a first call on the default session has reached the
    upstream call, at clock reading 2. *)
Definition greeted : state := (handler_begin 1 2 (say "Hello" None) initial).1.

(** Every array of [σ'] starts with what the same array held in [σ]. *)
Definition grows (σ σ' : state) : Prop :=
  ∀ l, read l σ `prefix_of` read l σ'.

(** A first call on the default session, a sweep after the session has
    expired, and only then the upstream answer. *)
Definition swept_while_waiting : list event :=
  [ Arrive 1 2 (say "Hello" None); Tick (SESSION_EXPIRY + 3);
    Settle 0 (answers "Hi") ].

(** Two calls on the default session, the second arriving before the first
    is answered. *)
Definition overlapped : list event :=
  [ Arrive 1 2 (say "Hello" None); Arrive 3 4 (say "Still there?" None);
    Settle 0 (answers "Hi"); Settle 0 (answers "Yes") ].

(** Object.prototype has no own session: the invariant behind the
    behaviour of inherited keys. *)
Definition no_inherited_session (σ : state) : Prop :=
  ∀ k, k ∈ Object_prototype_keys → sessions σ !! k = None.

(** A call whose upstream call times out, then one that is answered. *)
Definition failed_then_answered : list call :=
  [ {| c_created := 1; c_now := 2; c_req := say "Hello" None;
       c_outcome := TimedOut |};
    {| c_created := 3; c_now := 4; c_req := say "Hello?" None;
       c_outcome := answers "Hi" |} ].

(** Calls for two other sessions. *)
Definition calls_of_others : list call :=
  [ {| c_created := 5; c_now := 6; c_req := say "Bonjour" (Some "b");
       c_outcome := answers "Salut" |};
    {| c_created := 7; c_now := 8; c_req := say "Hola" (Some "c");
       c_outcome := NetworkError |} ].

(** An upstream response whose content block has an empty list of parts. *)
Definition empty_parts : axios_outcome := Resolved (candidate []).

(** An image on its own. *)
Definition picture_only : request :=
  {| prompt := JUndefined; sessionId := None;
     file := Some {| mimetype := "image/png"; buffer := [x89; x50; x4e] |} |}.



(** ** Properties of the sweep *)

Section Sweep.
Variable now : Z.

Lemma expired_idle s : expired now s ↔ SESSION_EXPIRY < idle now s.
Proof. unfold expired, idle. lia. Qed.

Lemma sweep_keys_filter keys (m : gmap string session) :
  NoDup keys →
  (∀ k, k ∈ keys → is_Some (m !! k)) →
  sweep_keys now keys m =
    Some (filter (λ kv, ¬ (kv.1 ∈ keys ∧ expired now kv.2)) m).
Proof.
  revert m. induction keys as [|k keys IH]; intros m Hnd Hin; simpl.
  - f_equal. symmetry. apply map_filter_id.
    intros i x _ [Hi _]. by apply not_elem_of_nil in Hi.
  - apply NoDup_cons in Hnd as [Hk Hnd].
    destruct (Hin k) as [s Hs]; [left|].
    unfold sweep_one. rewrite Hs.
    case_bool_decide as Hexp.
    + rewrite IH; [|done|].
      * f_equal. apply map_eq. intros i.
        rewrite !map_lookup_filter.
        destruct (decide (i = k)) as [->|Hne].
        -- rewrite lookup_delete_eq, Hs. simpl.
           rewrite option_guard_False; [done|].
           intros Hnot. apply Hnot. split; [left | done].
        -- rewrite lookup_delete_ne by done.
           destruct (m !! i) as [x|]; simpl; [|done].
           apply option_guard_iff. simpl.
           rewrite elem_of_cons. split.
           ++ intros Hn [[->|Hi] He]; [done | apply Hn; done].
           ++ intros Hn [Hi He]. apply Hn. split; [by right | done].
      * intros i Hi. rewrite lookup_delete_ne; [apply Hin; by right|].
        intros ->. done.
    + rewrite IH; [|done|].
      * f_equal. apply map_filter_ext. intros i x Hx. simpl.
        rewrite elem_of_cons. split.
        -- intros Hn [[->|Hi] He]; [|apply Hn; done].
           assert (x = s) as -> by congruence. done.
        -- intros Hn [Hi He]. apply Hn. split; [by right | done].
      * intros i Hi. apply Hin. by right.
Qed.

Lemma Object_keys_spec (m : gmap string session) k :
  k ∈ Object_keys m ↔ is_Some (m !! k).
Proof.
  unfold Object_keys. rewrite list_elem_of_fmap. split.
  - intros [[k' s] [-> Hs]]. apply elem_of_map_to_list in Hs. by exists s.
  - intros [s Hs]. exists (k, s). split; [done|].
    by apply elem_of_map_to_list.
Qed.

(** The sweep never throws, and what it leaves is the store filtered by
    "not expired". *)
Lemma sweep_filter σ :
  sweep now σ =
    Some {| sessions := filter (λ kv, ¬ expired now kv.2) (sessions σ);
            arrays := arrays σ;
            proto_lastActive := proto_lastActive σ |}.
Proof.
  unfold sweep. rewrite sweep_keys_filter.
  - do 2 f_equal. apply map_filter_ext. intros k s Hs. simpl.
    split; [|intros Hn [_ He]; done].
    intros Hn He. apply Hn. split; [|done].
    apply Object_keys_spec. by exists s.
  - apply NoDup_fst_map_to_list.
  - intros k. apply Object_keys_spec.
Qed.

End Sweep.

(** ** The heap operations *)

Lemma read_push_eq l t σ :
  (l < length (arrays σ))%nat → read l (push l t σ) = read l σ ++ [t].
Proof.
  intros Hl. unfold read, push. simpl.
  rewrite list_lookup_alter_eq.
  destruct (lookup_lt_is_Some_2 (arrays σ) l Hl) as [a Ha].
  rewrite Ha. reflexivity.
Qed.

Lemma read_push_ne l l' t σ : l ≠ l' → read l' (push l t σ) = read l' σ.
Proof.
  intros Hne. unfold read, push. simpl.
  by rewrite list_lookup_alter_ne.
Qed.

Lemma read_app_l l (σ σ' : state) extra :
  arrays σ' = arrays σ ++ extra → (l < length (arrays σ))%nat →
  read l σ' = read l σ.
Proof.
  intros He Hl. unfold read. rewrite He. by rewrite lookup_app_l.
Qed.

(** ** Initialising or updating the session *)

Lemma get_slot_own σ k x :
  sessions σ !! k = Some x → get_slot σ k = SlotSession x.
Proof. intros H. unfold get_slot. by rewrite H. Qed.

Lemma get_slot_not_own σ k :
  sessions σ !! k = None → get_history σ k = None.
Proof.
  intros H. unfold get_history, get_slot. rewrite H.
  case_bool_decide; [done|].
  destruct (String.eqb k "lastActive"); [|done].
  by destruct (proto_lastActive σ).
Qed.

Lemma getOrCreate_present created now k σ x :
  sessions σ !! k = Some x →
  getOrCreate created now k σ =
    ({| sessions := <[k := {| history := history x; lastActive := now |}]>
                      (sessions σ);
        arrays := arrays σ;
        proto_lastActive := proto_lastActive σ |},
     Some (history x)).
Proof.
  intros Hx. unfold getOrCreate.
  rewrite (get_slot_own _ _ _ Hx). simpl.
  unfold set_lastActive. rewrite (get_slot_own _ _ _ Hx).
  unfold get_history, get_slot. simpl. by rewrite lookup_insert_eq.
Qed.

Lemma getOrCreate_fresh created now k σ :
  slot_truthy (get_slot σ k) = false →
  getOrCreate created now k σ =
    ({| sessions := <[k := {| history := length (arrays σ); lastActive := now |}]>
                      (sessions σ);
        arrays := arrays σ ++ [[]];
        proto_lastActive := proto_lastActive σ |},
     Some (length (arrays σ))).
Proof.
  intros Hf. unfold getOrCreate. rewrite Hf. simpl.
  unfold set_lastActive, get_history, get_slot. simpl.
  rewrite lookup_insert_eq. simpl. rewrite lookup_insert_eq.
  by rewrite insert_insert_eq.
Qed.

Lemma getOrCreate_inherited created now k σ :
  sessions σ !! k = None → slot_truthy (get_slot σ k) = true →
  ∃ pl, getOrCreate created now k σ =
    ({| sessions := sessions σ; arrays := arrays σ; proto_lastActive := pl |},
     None).
Proof.
  intros Hk Ht. unfold getOrCreate. rewrite Ht. simpl.
  unfold set_lastActive.
  destruct (get_slot σ k) as [x| b | n |] eqn:Hs.
  - unfold get_slot in Hs. rewrite Hk in Hs.
    repeat case_match; discriminate.
  - destruct (String.eqb b "__proto__").
    + eexists. f_equal. by apply get_slot_not_own.
    + exists (proto_lastActive σ). destruct σ. f_equal.
      by apply get_slot_not_own.
  - exists (proto_lastActive σ). destruct σ. f_equal.
    by apply get_slot_not_own.
  - discriminate.
Qed.

(** After lines 72-77 the slot is never [undefined]. *)
Lemma slot_defined_after_init created k σ :
  let σ1 :=
    if negb (slot_truthy (get_slot σ k)) then
      {| sessions := <[k := {| history := length (arrays σ);
                               lastActive := created |}]> (sessions σ);
         arrays := arrays σ ++ [[]];
         proto_lastActive := proto_lastActive σ |}
    else σ in
  get_slot σ1 k ≠ SlotUndefined.
Proof.
  simpl. destruct (slot_truthy (get_slot σ k)) eqn:Ht; simpl.
  - by destruct (get_slot σ k).
  - unfold get_slot. simpl. by rewrite lookup_insert_eq.
Qed.

(** A stored session is never replaced: the slot of an own key is truthy. *)
Lemma slot_falsy_not_own σ k :
  slot_truthy (get_slot σ k) = false → sessions σ !! k = None.
Proof.
  unfold get_slot. destruct (sessions σ !! k); [discriminate | done].
Qed.

(** ** The handler up to the [await], case by case *)

Lemma begin_rejected created now req σ :
  supplied req = false →
  handler_begin created now req σ = (σ, Done Reply400).
Proof.
  unfold supplied, handler_begin. intros H.
  apply orb_false_elim in H as [-> ->]. done.
Qed.

Lemma begin_guard created now req σ :
  supplied req = true →
  handler_begin created now req σ =
    let '(σ1, h) := getOrCreate created now (the_sessionId req) σ in
    match h with
    | None => (σ1, Done (Reply500 TypeError))
    | Some h =>
        let σ2 := push h (newContent req) σ1 in
        let '(σ3, payload) := alloc (read h σ2) σ2 in
        (σ3, Await h payload)
    end.
Proof.
  unfold supplied, handler_begin. intros H.
  rewrite <- negb_orb, H. done.
Qed.

Lemma begin_present created now req σ x :
  supplied req = true →
  sessions σ !! the_sessionId req = Some x →
  (history x < length (arrays σ))%nat →
  handler_begin created now req σ =
    ({| sessions := <[the_sessionId req :=
                       {| history := history x; lastActive := now |}]>
                      (sessions σ);
        arrays := alter (λ a, a ++ [newContent req]) (history x) (arrays σ)
                  ++ [read (history x) σ ++ [newContent req]];
        proto_lastActive := proto_lastActive σ |},
     Await (history x) (length (arrays σ))).
Proof.
  intros Hs Hx Hl. rewrite begin_guard by done.
  rewrite (getOrCreate_present _ _ _ _ _ Hx).
  unfold alloc. simpl. rewrite length_alter.
  rewrite read_push_eq by done. done.
Qed.

Lemma begin_fresh created now req σ :
  supplied req = true →
  slot_truthy (get_slot σ (the_sessionId req)) = false →
  handler_begin created now req σ =
    ({| sessions := <[the_sessionId req :=
                       {| history := length (arrays σ); lastActive := now |}]>
                      (sessions σ);
        arrays := arrays σ ++ [[newContent req]; [newContent req]];
        proto_lastActive := proto_lastActive σ |},
     Await (length (arrays σ)) (S (length (arrays σ)))).
Proof.
  intros Hs Hf. rewrite begin_guard by done.
  rewrite getOrCreate_fresh by done.
  unfold alloc, push, read. simpl.
  rewrite length_alter, length_app. simpl.
  rewrite alter_app_r_alt by lia. rewrite Nat.sub_diag. simpl.
  rewrite lookup_app_r by lia. rewrite Nat.sub_diag. simpl.
  rewrite <- app_assoc. simpl.
  do 3 f_equal. lia.
Qed.

Lemma begin_inherited created now req σ :
  supplied req = true →
  sessions σ !! the_sessionId req = None →
  slot_truthy (get_slot σ (the_sessionId req)) = true →
  ∃ pl, handler_begin created now req σ =
    ({| sessions := sessions σ; arrays := arrays σ; proto_lastActive := pl |},
     Done (Reply500 TypeError)).
Proof.
  intros Hs Hk Ht. rewrite begin_guard by done.
  destruct (getOrCreate_inherited created now _ _ Hk Ht) as [pl ->].
  by exists pl.
Qed.

(** ** The handler after the [await] *)

Lemma resume_rejected h o σ e :
  callGemini o = inl e → handler_resume h o σ = (σ, Reply500 e).
Proof. intros H. unfold handler_resume. by rewrite H. Qed.

Lemma resume_resolved h o σ ai :
  callGemini o = inr ai →
  ∃ r, handler_resume h o σ = (push h (assistant_turn o) σ, r) ∧
       (r = Reply500 TypeError ∨
        r = Reply200 (get_prop (get_index0 (get_prop ai "parts")) "text")).
Proof.
  intros H. unfold handler_resume, assistant_turn, aiResponse_parts.
  rewrite H. repeat case_match; eauto.
Qed.

(** A reply with status 200 comes only from line 97, after both pushes. *)
Lemma resume_200 h o σ σ' r :
  handler_resume h o σ = (σ', r) → status r = 200 →
  σ' = push h (assistant_turn o) σ.
Proof.
  intros H Hr. destruct (callGemini o) as [e|ai] eqn:Ho.
  - rewrite (resume_rejected _ _ _ _ Ho) in H.
    injection H as <- <-. discriminate.
  - destruct (resume_resolved h _ σ _ Ho) as (r' & Hr' & _).
    congruence.
Qed.

(** There is no session to find under a key the store does not own, and a
    call on such a key either creates the session or fails before the
    upstream call. *)
Lemma slot_cases σ k :
  (∃ x, sessions σ !! k = Some x) ∨
  (sessions σ !! k = None ∧ slot_truthy (get_slot σ k) = false) ∨
  (sessions σ !! k = None ∧ slot_truthy (get_slot σ k) = true).
Proof.
  destruct (sessions σ !! k) as [x|] eqn:Hk; [left; eauto|right].
  destruct (slot_truthy (get_slot σ k)); eauto.
Qed.

(** A request that is not [Parsed] is answered at once, the state as it was. *)
Lemma begin_unparsed created now inc σ σ' pr :
  handler_begin created now inc σ = (σ', pr) →
  (∃ req, inc = Parsed req) ∨
  (σ' = σ ∧ (pr = Done Reply400 ∨ pr = Done (Reply500 TypeError))).
Proof.
  destruct inc as [req | p f |]; unfold handler_begin; [eauto | |].
  - destruct (negb (truthy p) && negb (bool_decide (is_Some f)));
      intros [= <- <-]; eauto.
  - intros [= <- <-]; eauto.
Qed.

Lemma begin_cases created now req σ :
  wf_state σ →
  let k := the_sessionId req in
  (supplied req = false ∧
   handler_begin created now req σ = (σ, Done Reply400)) ∨
  (∃ x, supplied req = true ∧ sessions σ !! k = Some x ∧
        (history x < length (arrays σ))%nat ∧
        handler_begin created now req σ =
          ({| sessions := <[k := {| history := history x; lastActive := now |}]>
                            (sessions σ);
              arrays := alter (λ a, a ++ [newContent req]) (history x) (arrays σ)
                        ++ [read (history x) σ ++ [newContent req]];
              proto_lastActive := proto_lastActive σ |},
           Await (history x) (length (arrays σ)))) ∨
  (supplied req = true ∧ sessions σ !! k = None ∧
   handler_begin created now req σ =
     ({| sessions := <[k := {| history := length (arrays σ); lastActive := now |}]>
                       (sessions σ);
         arrays := arrays σ ++ [[newContent req]; [newContent req]];
         proto_lastActive := proto_lastActive σ |},
      Await (length (arrays σ)) (S (length (arrays σ))))) ∨
  (∃ pl, supplied req = true ∧ sessions σ !! k = None ∧
         handler_begin created now req σ =
           ({| sessions := sessions σ; arrays := arrays σ;
               proto_lastActive := pl |},
            Done (Reply500 TypeError))).
Proof.
  intros [Hb _] k.
  destruct (supplied req) eqn:Hs.
  2: { left. split; [done|]. by apply begin_rejected. }
  right. destruct (slot_cases σ k) as [[x Hx] | [[Hk Hf] | [Hk Ht]]].
  - left. exists x. assert (history x < length (arrays σ))%nat as Hl.
    { apply Hb. by exists k, x. }
    repeat split; try done. by apply begin_present.
  - right. left. repeat split; try done. by apply begin_fresh.
  - right. right.
    destruct (begin_inherited created now req σ Hs Hk Ht) as [pl Hpl].
    exists pl. done.
Qed.

(** ** The invariants hold in every reachable state *)

Lemma session_at_insert_old σ k x now a pl l :
  sessions σ !! k = Some x →
  session_at
    {| sessions := <[k := {| history := history x; lastActive := now |}]>
                     (sessions σ);
       arrays := a; proto_lastActive := pl |} l →
  session_at σ l.
Proof.
  intros Hx (k' & y & Hy & <-). simpl in Hy.
  apply lookup_insert_Some in Hy as [[<- <-] | [Hne Hy]].
  - by exists k, x.
  - by exists k', y.
Qed.

Lemma wf_state_initial : wf_state initial.
Proof.
  split.
  - intros l (k & x & Hx & _). simpl in Hx. by rewrite lookup_empty in Hx.
  - intros k k' x x' Hx. simpl in Hx. by rewrite lookup_empty in Hx.
Qed.

Lemma wf_state_touch σ k x now extra f :
  wf_state σ → sessions σ !! k = Some x →
  wf_state
    {| sessions := <[k := {| history := history x; lastActive := now |}]>
                     (sessions σ);
       arrays := alter f (history x) (arrays σ) ++ extra;
       proto_lastActive := proto_lastActive σ |}.
Proof.
  intros [Hb Hi] Hx. split.
  - intros l Hl. simpl. rewrite length_app, length_alter.
    apply (session_at_insert_old _ _ _ _ _ _ _ Hx) in Hl.
    apply Hb in Hl. lia.
  - simpl. intros k1 k2 x1 x2 H1 H2 He.
    apply lookup_insert_Some in H1 as [[<- <-] | [Hne1 H1]];
      apply lookup_insert_Some in H2 as [[<- <-] | [Hne2 H2]];
      simpl in *; eauto.
Qed.

Lemma wf_state_create σ k now extra :
  wf_state σ → sessions σ !! k = None → (0 < length extra)%nat →
  wf_state
    {| sessions := <[k := {| history := length (arrays σ); lastActive := now |}]>
                     (sessions σ);
       arrays := arrays σ ++ extra;
       proto_lastActive := proto_lastActive σ |}.
Proof.
  intros [Hb Hi] Hk Hex. split.
  - intros l (k' & y & Hy & <-). simpl in *. rewrite length_app.
    apply lookup_insert_Some in Hy as [[<- <-] | [Hne Hy]]; simpl; [lia|].
    assert (history y < length (arrays σ))%nat; [|lia].
    apply Hb. by exists k', y.
  - simpl. intros k1 k2 x1 x2 H1 H2 He.
    apply lookup_insert_Some in H1 as [[<- <-] | [Hne1 H1]];
      apply lookup_insert_Some in H2 as [[<- <-] | [Hne2 H2]];
      simpl in *; eauto.
    + assert (history x2 < length (arrays σ))%nat; [|lia].
      apply Hb. by exists k2, x2.
    + assert (history x1 < length (arrays σ))%nat; [|lia].
      apply Hb. by exists k1, x1.
Qed.

Lemma wf_state_heap σ σ' :
  wf_state σ → sessions σ' = sessions σ →
  (length (arrays σ) ≤ length (arrays σ'))%nat → wf_state σ'.
Proof.
  intros [Hb Hi] Hs Hl. split.
  - intros l (k & x & Hx & <-). rewrite Hs in Hx.
    assert (history x < length (arrays σ))%nat; [|lia].
    apply Hb. by exists k, x.
  - rewrite Hs. apply Hi.
Qed.

Lemma begin_wf_state created now inc σ σ' pr :
  wf_state σ → handler_begin created now inc σ = (σ', pr) → wf_state σ'.
Proof.
  intros Hwf H.
  destruct (begin_unparsed _ _ _ _ _ _ H) as [[req ->] | [-> _]]; [|done].
  destruct (begin_cases created now req σ Hwf)
    as [[_ E] | [(x & _ & Hx & _ & E) | [(_ & Hk & E) | (pl & _ & _ & E)]]];
    rewrite E in H; injection H as <- <-.
  - done.
  - by apply wf_state_touch.
  - apply wf_state_create; [done | done | simpl; lia].
  - by eapply wf_state_heap.
Qed.

Lemma resume_wf_state h o σ σ' r :
  wf_state σ → handler_resume h o σ = (σ', r) → wf_state σ'.
Proof.
  intros Hwf H. destruct (callGemini o) as [e|ai] eqn:Ho.
  - rewrite (resume_rejected _ _ _ _ Ho) in H. by injection H as <- <-.
  - destruct (resume_resolved h _ σ _ Ho) as (r' & Hr' & _).
    rewrite Hr' in H. injection H as <- <-.
    eapply wf_state_heap; [done | done |]. simpl. by rewrite length_alter.
Qed.

Lemma sweep_wf_state now σ σ' :
  wf_state σ → sweep now σ = Some σ' → wf_state σ'.
Proof.
  intros [Hb Hi]. rewrite sweep_filter. intros [= <-]. split; simpl.
  - intros l (k & x & Hx & <-). simpl in Hx.
    apply map_lookup_filter_Some in Hx as [Hx _]. apply Hb. by exists k, x.
  - intros k k' x x' Hx Hx'.
    apply map_lookup_filter_Some in Hx as [Hx _].
    apply map_lookup_filter_Some in Hx' as [Hx' _]. by eapply Hi.
Qed.

Lemma relay_wf_state created now req o σ σ' r pl :
  wf_state σ → relay created now req o σ = (σ', r, pl) → wf_state σ'.
Proof.
  intros Hwf. unfold relay.
  destruct (handler_begin created now req σ) as [σ1 [r1 | h p]] eqn:Hb.
  - intros [= <- _ _]. by eapply begin_wf_state.
  - destruct (handler_resume h o σ1) as [σ2 r2] eqn:Hr.
    intros [= <- _ _]. eapply resume_wf_state; [|done].
    by eapply begin_wf_state.
Qed.

(** What one turn of the event loop can do to the heap: it only grows; an
    array that is a history afterwards was one before, or is new; and an
    allocated array that was not a history keeps its contents. *)
Lemma step_frame ev s s' r :
  wf s → step ev s = Some (s', r) →
  (length (arrays (st s)) ≤ length (arrays (st s')))%nat ∧
  (∀ l, is_history s' l →
        is_history s l ∨ (length (arrays (st s)) ≤ l < length (arrays (st s')))%nat) ∧
  (∀ l, (l < length (arrays (st s)))%nat → ¬ is_history s l →
        arrays (st s') !! l = arrays (st s) !! l).
Proof.
  intros [Hwf Hin] Hstep. destruct ev as [created now inc | i o | now]; simpl in Hstep.
  - destruct inc as [req | p f |].
    2: { unfold handler_begin in Hstep.
         destruct (negb (truthy p) && negb (bool_decide (is_Some f)));
           injection Hstep as <- <-; simpl; (split; [lia|]); (split; [|done]);
           intros l [Hl | Hl]; left; first [by left | by right]. }
    2: { unfold handler_begin in Hstep. injection Hstep as <- <-; simpl.
         split; [lia|]. split; [|done].
         intros l [Hl | Hl]; left; [by left | by right]. }
    destruct (begin_cases created now req (st s) Hwf)
      as [[_ E] | [(x & _ & Hx & Hl & E) | [(_ & Hk & E) | (pl & _ & _ & E)]]];
      rewrite E in Hstep; injection Hstep as <- <-; simpl.
    + split; [lia|]. split; [|done].
      intros l [Hl | Hl]; left; [by left | by right].
    + rewrite length_app, length_alter. simpl. split; [lia|]. split.
      * intros l [Hs | (p & Hp & <-)]; left.
        -- left. by eapply session_at_insert_old.
        -- apply elem_of_app in Hp as [Hp | Hp].
           ++ right. by exists p.
           ++ apply list_elem_of_singleton in Hp as ->. simpl.
              left. by exists (the_sessionId req), x.
      * intros l Hlt Hnh. rewrite lookup_app_l by (by rewrite length_alter).
        apply list_lookup_alter_ne. intros <-. apply Hnh.
        left. by exists (the_sessionId req), x.
    + rewrite length_app. simpl. split; [lia|]. split.
      * intros l [(k' & y & Hy & <-) | (p & Hp & <-)]; simpl in *.
        -- apply lookup_insert_Some in Hy as [[<- <-] | [Hne Hy]]; simpl.
           ++ right. lia.
           ++ left. left. by exists k', y.
        -- apply elem_of_app in Hp as [Hp | Hp].
           ++ left. right. by exists p.
           ++ apply list_elem_of_singleton in Hp as ->. simpl. right. lia.
      * intros l Hlt _. by rewrite lookup_app_l.
    + split; [lia|]. split; [|done].
      intros l [Hl | Hl]; left; [by left | by right].
  - destruct (inflight s !! i) as [p|] eqn:Hp.
    2: { injection Hstep as <- <-. split; [lia|]. split; [by left | done]. }
    destruct (handler_resume (p_history p) o (st s)) as [σ r'] eqn:Hr.
    injection Hstep as <- <-. simpl.
    assert (∀ l, is_history {| st := σ; inflight := delete i (inflight s) |} l →
                 sessions σ = sessions (st s) → is_history s l) as Hsub.
    { intros l [(k & x & Hx & <-) | (q & Hq & <-)] Hs; simpl in *.
      - left. exists k, x. by rewrite <- Hs.
      - right. exists q. split; [|done]. by eapply list_elem_of_delete_inv. }
    destruct (callGemini o) as [e|ai] eqn:Ho.
    + rewrite (resume_rejected _ _ _ _ Ho) in Hr. injection Hr as <- <-.
      split; [lia|]. split; [|done]. intros l Hl. left. by apply Hsub.
    + destruct (resume_resolved (p_history p) _ (st s) _ Ho) as (r'' & Hr' & _).
      rewrite Hr' in Hr. injection Hr as <- <-. simpl.
      rewrite length_alter. split; [lia|]. split.
      * intros l Hl. left. by apply Hsub.
      * intros l Hlt Hnh. apply list_lookup_alter_ne. intros <-.
        apply Hnh. right. exists p. split; [|done].
        by eapply list_elem_of_lookup_2.
  - rewrite sweep_filter in Hstep. injection Hstep as <- <-. simpl.
    split; [lia|]. split; [|done].
    intros l [(k & x & Hx & <-) | Hl]; left; simpl in *.
    + apply map_lookup_filter_Some in Hx as [Hx _]. left. by exists k, x.
    + by right.
Qed.

Lemma step_wf ev s s' r : wf s → step ev s = Some (s', r) → wf s'.
Proof.
  intros Hwf Hstep.
  destruct (step_frame _ _ _ _ Hwf Hstep) as (Hlen & Hhist & _).
  destruct Hwf as [Hst Hin]. split.
  - destruct ev as [created now req | i o | now]; simpl in Hstep.
    + destruct (handler_begin created now req (st s)) as [σ [r1 | h p]] eqn:Hb;
        injection Hstep as <- <-; by eapply begin_wf_state.
    + destruct (inflight s !! i) as [p|]; [|by injection Hstep as <- <-].
      destruct (handler_resume (p_history p) o (st s)) as [σ r'] eqn:Hr.
      injection Hstep as <- <-. by eapply resume_wf_state.
    + destruct (sweep now (st s)) as [σ|] eqn:Hsw; [|done].
      injection Hstep as <- <-. by eapply sweep_wf_state.
  - intros p Hp.
    destruct (Hhist (p_history p)) as [[Hs | (q & Hq & He)] | Hnew].
    + right. by exists p.
    + destruct Hst as [Hb _]. apply Hb in Hs. lia.
    + rewrite <- He. apply Hin in Hq. lia.
    + lia.
Qed.

Lemma wf_boot : wf boot.
Proof.
  split; [apply wf_state_initial|]. intros p Hp. by apply not_elem_of_nil in Hp.
Qed.

Lemma run_wf evs s s' : wf s → run evs s = Some s' → wf s'.
Proof.
  revert s. induction evs as [|ev evs IH]; intros s Hwf; simpl.
  - by intros [= <-].
  - destruct (step ev s) as [[s1 r]|] eqn:Hstep; [|done].
    apply IH. by eapply step_wf.
Qed.

(** Every state the server reaches from [boot] is well formed. *)
Lemma reachable_wf evs s : run evs boot = Some s → wf s.
Proof. apply run_wf, wf_boot. Qed.

(** The timer callback never throws, so the event loop never dies. *)
Lemma run_total evs s : ∃ s', run evs s = Some s'.
Proof.
  revert s. induction evs as [|ev evs IH]; intros s; simpl; [eauto|].
  destruct ev as [created now req | i o | now]; simpl.
  - destruct (handler_begin created now req (st s)) as [σ [r | h p]]; apply IH.
  - destruct (inflight s !! i) as [p|]; [|apply IH].
    destruct (handler_resume (p_history p) o (st s)). apply IH.
  - rewrite sweep_filter. apply IH.
Qed.

(** A frozen array stays frozen, with the same contents. *)
Lemma step_frozen ev s s' r l :
  wf s → frozen s l → step ev s = Some (s', r) →
  frozen s' l ∧ read l (st s') = read l (st s).
Proof.
  intros Hwf [Hl Hnh] Hstep.
  destruct (step_frame _ _ _ _ Hwf Hstep) as (Hlen & Hhist & Hsame).
  split; [split|].
  - lia.
  - intros Hh. destruct (Hhist l Hh) as [? | ?]; [done | lia].
  - unfold read. by rewrite Hsame.
Qed.

Lemma run_frozen evs s s' l :
  wf s → frozen s l → run evs s = Some s' →
  frozen s' l ∧ read l (st s') = read l (st s).
Proof.
  revert s. induction evs as [|ev evs IH]; intros s Hwf Hfr; simpl.
  - by intros [= <-].
  - destruct (step ev s) as [[s1 r]|] eqn:Hstep; [|done].
    intros Hrun.
    destruct (step_frozen _ _ _ _ _ Hwf Hfr Hstep) as [Hfr1 He1].
    destruct (IH s1 (step_wf _ _ _ _ Hwf Hstep) Hfr1 Hrun) as [Hfr' He'].
    split; [done | congruence].
Qed.

(** ** What the handler leaves when it reaches the upstream call *)

Lemma begin_await created now (req : request) σ σ1 h p :
  wf_state σ →
  handler_begin created now req σ = (σ1, Await h p) →
  let k := the_sessionId req in
  supplied req = true ∧
  sessions σ1 = <[k := {| history := h; lastActive := now |}]> (sessions σ) ∧
  (h < length (arrays σ1))%nat ∧
  (length (arrays σ) ≤ p < length (arrays σ1))%nat ∧
  h ≠ p ∧
  read h σ1 = history_of σ k ++ [newContent req] ∧
  read p σ1 = read h σ1 ∧
  (∀ l, (l < length (arrays σ))%nat → l ≠ h → read l σ1 = read l σ) ∧
  (∀ x, sessions σ !! k = Some x → history x = h).
Proof.
  intros Hwf H k. subst k.
  destruct (begin_cases created now req σ Hwf)
    as [[_ E] | [(x & Hs & Hx & Hl & E) | [(Hs & Hk & E) | (pl & _ & _ & E)]]];
    rewrite E in H; try discriminate; injection H as <- <- <-.
  - split; [done|]. split; [done|]. simpl.
    rewrite length_app, length_alter. simpl.
    split; [lia|]. split; [lia|]. split; [lia|].
    unfold history_of, read. rewrite Hx. simpl.
    rewrite lookup_app_l by (by rewrite length_alter).
    rewrite list_lookup_alter_eq.
    destruct (lookup_lt_is_Some_2 (arrays σ) (history x) Hl) as [a Ha].
    rewrite Ha. simpl. split; [done|]. split.
    + rewrite lookup_app_r by (rewrite length_alter; lia).
      rewrite length_alter, Nat.sub_diag. done.
    + split.
      * intros l Hlt Hne. rewrite lookup_app_l by (by rewrite length_alter).
        by rewrite list_lookup_alter_ne.
      * intros y Hy. congruence.
  - split; [done|]. split; [done|]. simpl.
    rewrite length_app. simpl.
    split; [lia|]. split; [lia|]. split; [lia|].
    unfold history_of, read. rewrite Hk. simpl.
    rewrite !lookup_app_r by lia.
    rewrite Nat.sub_diag.
    replace (S (length (arrays σ)) - length (arrays σ))%nat with 1%nat by lia.
    simpl. split; [done|]. split; [done|]. split.
    + intros l Hlt _. by rewrite lookup_app_l.
    + intros y Hy. congruence.
Qed.

Lemma begin_done created now (req : request) σ σ1 r :
  wf_state σ →
  handler_begin created now req σ = (σ1, Done r) →
  sessions σ1 = sessions σ ∧ arrays σ1 = arrays σ ∧
  ((r = Reply400 ∧ supplied req = false ∧ σ1 = σ) ∨
   (r = Reply500 TypeError ∧ supplied req = true ∧
    sessions σ !! the_sessionId req = None)).
Proof.
  intros Hwf H.
  destruct (begin_cases created now req σ Hwf)
    as [[Hs E] | [(x & _ & _ & _ & E) | [(_ & _ & E) | (pl & Hs & Hk & E)]]];
    rewrite E in H; try discriminate; injection H as <- <-; simpl; eauto 10.
Qed.

(** A call leaves the other sessions' turns as they were. *)
Lemma begin_other created now (req : request) σ σ1 pr k :
  wf_state σ →
  handler_begin created now req σ = (σ1, pr) →
  k ≠ the_sessionId req →
  sessions σ1 !! k = sessions σ !! k ∧ history_of σ1 k = history_of σ k.
Proof.
  intros Hwf H Hne. destruct pr as [r | h p].
  - destruct (begin_done _ _ _ _ _ _ Hwf H) as (Hs & Ha & _).
    unfold history_of, read. by rewrite Hs, Ha.
  - pose proof (begin_wf_state _ _ _ _ _ _ Hwf H) as [_ Hinj].
    destruct (begin_await _ _ _ _ _ _ _ Hwf H)
      as (_ & Hs & _ & _ & _ & _ & _ & Hsame & _).
    assert (sessions σ1 !! k = sessions σ !! k) as Hk.
    { rewrite Hs. by rewrite lookup_insert_ne. }
    split; [done|]. unfold history_of. rewrite Hk.
    destruct (sessions σ !! k) as [y|] eqn:Hy; [|done].
    apply Hsame.
    + destruct Hwf as [Hb _]. apply Hb. by exists k, y.
    + intros He. apply Hne.
      apply (Hinj k (the_sessionId req) y {| history := h; lastActive := now |});
        [congruence | by rewrite Hs, lookup_insert_eq | done].
Qed.

Lemma history_of_push σ k x t :
  sessions σ !! k = Some x → (history x < length (arrays σ))%nat →
  history_of (push (history x) t σ) k = history_of σ k ++ [t].
Proof.
  intros Hx Hl. unfold history_of. simpl. rewrite Hx.
  by apply read_push_eq.
Qed.

(** One call, when the handler reaches the upstream call: the payload is
    the session's turns followed by the user turn, and the session ends with
    these, followed by the assistant turn unless the call was rejected. *)
Lemma relay_await created now (req : request) o σ σ1 h p :
  wf_state σ →
  handler_begin created now req σ = (σ1, Await h p) →
  let k := the_sessionId req in
  ∃ σ2 r,
    relay created now req o σ =
      (σ2, r, Some (history_of σ k ++ [newContent req])) ∧
    handler_resume h o σ1 = (σ2, r) ∧
    sessions σ2 = sessions σ1 ∧
    history_of σ2 k =
      history_of σ k ++ [newContent req] ++
      match callGemini o with
      | inl _ => []
      | inr _ => [assistant_turn o]
      end.
Proof.
  intros Hwf Hb k.
  destruct (begin_await _ _ _ _ _ _ _ Hwf Hb)
    as (_ & Hs & Hl & _ & _ & Hh & Hp & _ & _). fold k in Hs, Hh.
  assert (sessions σ1 !! k = Some {| history := h; lastActive := now |}) as Hk.
  { rewrite Hs. apply lookup_insert_eq. }
  assert (history_of σ1 k = history_of σ k ++ [newContent req]) as Hh1.
  { unfold history_of at 1. by rewrite Hk. }
  unfold relay. rewrite Hb, Hp, Hh.
  destruct (callGemini o) as [e|ai] eqn:Ho.
  - rewrite (resume_rejected _ _ _ _ Ho).
    exists σ1, (Reply500 e). rewrite app_nil_r. done.
  - destruct (resume_resolved h _ σ1 _ Ho) as (r & Hr & _). rewrite Hr.
    exists (push h (assistant_turn o) σ1), r.
    repeat split; try done.
    rewrite (history_of_push σ1 k _ _ Hk Hl), Hh1.
    by rewrite <- app_assoc.
Qed.

(** ** Calls served one after the other *)

Lemma relay_other created now (req : request) o σ σ' r pl k :
  wf_state σ →
  relay created now req o σ = (σ', r, pl) →
  k ≠ the_sessionId req →
  sessions σ' !! k = sessions σ !! k ∧ history_of σ' k = history_of σ k.
Proof.
  intros Hwf H Hne. unfold relay in H.
  destruct (handler_begin created now req σ) as [σ1 [r1 | h p]] eqn:Hb.
  - injection H as <- <- <-. by eapply begin_other.
  - destruct (begin_other _ _ _ _ _ _ k Hwf Hb Hne) as [Hs1 Hh1].
    pose proof (begin_wf_state _ _ _ _ _ _ Hwf Hb) as [_ Hinj].
    destruct (begin_await _ _ _ _ _ _ _ Hwf Hb) as (_ & Hs & _).
    destruct (handler_resume h o σ1) as [σ2 r2] eqn:Hr.
    injection H as <- <- <-.
    destruct (callGemini o) as [e|ai] eqn:Ho.
    + rewrite (resume_rejected _ _ _ _ Ho) in Hr. by injection Hr as <- <-.
    + destruct (resume_resolved h _ σ1 _ Ho) as (r' & Hr' & _).
      rewrite Hr' in Hr. injection Hr as <- <-. simpl.
      split; [done|]. rewrite <- Hh1. unfold history_of. simpl.
      destruct (sessions σ1 !! k) as [y|] eqn:Hy; [|done].
      apply read_push_ne. intros He. apply Hne.
      apply (Hinj k (the_sessionId req) y {| history := h; lastActive := now |});
        [done | by rewrite Hs, lookup_insert_eq | done].
Qed.

(** Histories are append-only under calls. *)
Lemma relay_prefix created now (req : request) o σ σ' r pl k :
  wf_state σ →
  relay created now req o σ = (σ', r, pl) →
  history_of σ k `prefix_of` history_of σ' k.
Proof.
  intros Hwf H. destruct (decide (k = the_sessionId req)) as [-> | Hne].
  - destruct (handler_begin created now req σ) as [σ1 [r1 | h p]] eqn:Hb.
    + unfold relay in H. rewrite Hb in H. injection H as <- <- <-.
      destruct (begin_done _ _ _ _ _ _ Hwf Hb) as (Hs & Ha & _).
      unfold history_of, read. by rewrite Hs, Ha.
    + destruct (relay_await _ _ _ o _ _ _ _ Hwf Hb) as (σ2 & r2 & E & _ & _ & Hh).
      rewrite E in H. injection H as <- <- <-. rewrite Hh.
      by apply prefix_app_r.
  - destruct (relay_other _ _ _ _ _ _ _ _ k Hwf H Hne) as [_ ->]. done.
Qed.

Lemma serve_wf_state calls σ σ' out :
  wf_state σ → serve calls σ = (σ', out) → wf_state σ'.
Proof.
  revert σ out. induction calls as [|c calls IH]; intros σ out Hwf; simpl.
  - by intros [= <- _].
  - unfold relay_call.
    destruct (relay _ _ _ _ σ) as [[σ1 r] pl] eqn:Hr.
    destruct (serve calls σ1) as [σ2 out'] eqn:Hs.
    intros [= <- _]. eapply IH; [|done]. by eapply relay_wf_state.
Qed.

Lemma serve_prefix calls σ σ' out k :
  wf_state σ → serve calls σ = (σ', out) →
  history_of σ k `prefix_of` history_of σ' k.
Proof.
  revert σ out. induction calls as [|c calls IH]; intros σ out Hwf; simpl.
  - by intros [= <- _].
  - unfold relay_call.
    destruct (relay _ _ _ _ σ) as [[σ1 r] pl] eqn:Hr.
    destruct (serve calls σ1) as [σ2 out'] eqn:Hs.
    intros [= <- _]. etrans.
    + by eapply relay_prefix.
    + eapply IH; [|done]. by eapply relay_wf_state.
Qed.

(** A call answered with status 200 went through both pushes. *)
Lemma relay_200 created now (req : request) o σ σ' r pl :
  wf_state σ →
  relay created now req o σ = (σ', r, pl) → status r = 200 →
  let k := the_sessionId req in
  pl = Some (history_of σ k ++ [newContent req]) ∧
  history_of σ' k = history_of σ k ++ [newContent req; assistant_turn o] ∧
  ∃ data, o = Resolved data ∧
    r = Reply200 (get_prop (get_index0 (aiResponse_parts o)) "text").
Proof.
  intros Hwf H H200 k. subst k.
  destruct (handler_begin created now req σ) as [σ1 [r1 | h p]] eqn:Hb.
  - unfold relay in H. rewrite Hb in H. injection H as <- <- <-.
    destruct (begin_done _ _ _ _ _ _ Hwf Hb) as (_ & _ & [[-> _] | [-> _]]);
      discriminate.
  - destruct (relay_await _ _ _ o _ _ _ _ Hwf Hb) as (σ2 & r2 & E & Hr & _ & Hh).
    rewrite E in H. injection H as <- <- <-.
    destruct (callGemini o) as [e|ai] eqn:Ho.
    + rewrite (resume_rejected _ _ _ _ Ho) in Hr. injection Hr as <- <-.
      discriminate.
    + split; [done|]. split; [done|].
      destruct o as [| | code | data]; try discriminate.
      exists data. split; [done|].
      destruct (resume_resolved h _ σ1 _ Ho) as (r' & Hr' & [-> | ->]);
        rewrite Hr' in Hr; injection Hr as <- <-; [discriminate|].
      unfold aiResponse_parts. by rewrite Ho.
Qed.


(** * The claims *)

(** ** C1: the expiry sweep *)

(** C1, as stated, fails: a session whose idle time equals the TTL exactly
    is not removed.  With [now = SESSION_EXPIRY] and [lastActive = 0] the
    idle time is the TTL, the test [lastActive < now - SESSION_EXPIRY] of
    line 40 is [0 < 0], and the sweep leaves the store as it was. *)
Lemma sweep_keeps_idle_equal_ttl :
  sessions one_session !! "s" = Some {| history := 0%nat; lastActive := 0 |} ∧
  idle SESSION_EXPIRY {| history := 0%nat; lastActive := 0 |} = SESSION_EXPIRY ∧
  sweep SESSION_EXPIRY one_session = Some one_session.
Proof. by vm_compute. Qed.

(** C1, amended: the sweep never fails and removes exactly the sessions
    whose idle time is strictly greater than the TTL; every other session
    keeps its record ([history] and [lastActive]) and its turns, and the
    heap is untouched. *)
Theorem sweep_removes_idle_beyond_ttl now σ :
  ∃ σ', sweep now σ = Some σ' ∧
    arrays σ' = arrays σ ∧
    ∀ k,
      sessions σ' !! k =
        match sessions σ !! k with
        | Some s =>
            if bool_decide (SESSION_EXPIRY < idle now s) then None else Some s
        | None => None
        end ∧
      (is_Some (sessions σ' !! k) → history_of σ' k = history_of σ k).
Proof.
  eexists. split; [apply sweep_filter|]. simpl. split; [done|].
  intros k.
  assert (filter (λ kv : string * session, ¬ expired now kv.2) (sessions σ) !! k =
          match sessions σ !! k with
          | Some s =>
              if bool_decide (SESSION_EXPIRY < idle now s) then None else Some s
          | None => None
          end) as Hk.
  { rewrite map_lookup_filter.
    destruct (sessions σ !! k) as [s|]; simpl; [|done].
    case_bool_decide as Hi.
    - rewrite option_guard_False; [done|].
      intros Hn. apply Hn. by apply expired_idle.
    - rewrite option_guard_True; [done|].
      intros He. apply Hi. by apply expired_idle. }
  split; [done|].
  intros [s Hs]. unfold history_of at 1. simpl. rewrite Hs.
  rewrite Hk in Hs. unfold history_of.
  destruct (sessions σ !! k) as [s0|]; [|done].
  case_bool_decide; [done|]. by injection Hs as ->.
Qed.

(** ** C2 and C9: the guard of line 67 *)

(** C2 fails for a request without a parsed body: it supplies neither a
    prompt nor an image, but [req.body] is [undefined], the destructuring
    of line 64 throws before the guard of line 67 is reached, and the catch
    of lines 98-103 answers 500, not 400.  The state is left as it was. *)
Theorem bodyless_request_answered_500 created now o s :
  handler_begin created now NoBody (st s) = (st s, Done (Reply500 TypeError)) ∧
  relay created now NoBody o (st s) = (st s, Reply500 TypeError, None) ∧
  step (Arrive created now NoBody) s = Some (s, Some (Reply500 TypeError)) ∧
  status (Reply500 TypeError) = 500.
Proof. by destruct s. Qed.

(** When the body was parsed, the guard does what C2 says: a call that
    supplies neither a prompt nor an image is answered with status 400,
    whatever the session id, the clock and the state.  The state is
    returned as it was (no session is created, no session's history or
    [lastActive] changes), no handler is left waiting and the upstream call
    is not made. *)
Lemma no_prompt_no_image_rejected created now k o s :
  let req := {| prompt := JUndefined; sessionId := k; file := None |} in
  handler_begin created now req (st s) = (st s, Done Reply400) ∧
  relay created now req o (st s) = (st s, Reply400, None) ∧
  step (Arrive created now req) s = Some (s, Some Reply400) ∧
  status Reply400 = 400.
Proof. by destruct s. Qed.

(** C9: an empty-string prompt without an image counts as no prompt: the
    reply is 400 and the state is returned as it was. *)
Theorem empty_prompt_rejected created now k o s :
  let req := {| prompt := JStr ""; sessionId := k; file := None |} in
  supplied req = false ∧
  handler_begin created now req (st s) = (st s, Done Reply400) ∧
  relay created now req o (st s) = (st s, Reply400, None) ∧
  step (Arrive created now req) s = Some (s, Some Reply400) ∧
  status Reply400 = 400.
Proof. by destruct s. Qed.

(** ** C5: initialising or updating the session *)

(** On keys that [sessions] does not inherit from [Object.prototype],
    lines 72-79 behave as the specification says: an unknown key gets a new
    session with no turns, a known key keeps its history, and [lastActive]
    is [now] in both cases. *)
Lemma getOrCreate_ordinary_key created now k σ :
  wf_state σ →
  k ∉ Object_prototype_keys → k ≠ "lastActive" →
  ∃ σ' h,
    getOrCreate created now k σ = (σ', Some h) ∧
    sessions σ' !! k = Some {| history := h; lastActive := now |} ∧
    history_of σ' k = history_of σ k ∧
    (sessions σ !! k = None → read h σ' = []) ∧
    (∀ x, sessions σ !! k = Some x → history x = h) ∧
    (∀ k', k' ≠ k → sessions σ' !! k' = sessions σ !! k').
Proof.
  intros [Hb _] Hk Hla.
  destruct (sessions σ !! k) as [x|] eqn:Hx.
  - rewrite (getOrCreate_present _ _ _ _ _ Hx).
    eexists _, _. split; [done|]. simpl.
    split; [apply lookup_insert_eq|].
    split; [|split; [done|split]].
    + unfold history_of. simpl. by rewrite lookup_insert_eq, Hx.
    + by intros ? [= <-].
    + intros k' Hne. by rewrite lookup_insert_ne.
  - assert (slot_truthy (get_slot σ k) = false) as Hf.
    { unfold get_slot. rewrite Hx.
      rewrite bool_decide_eq_false_2 by done.
      destruct (String.eqb_spec k "lastActive"); done. }
    rewrite (getOrCreate_fresh _ _ _ _ Hf).
    eexists _, _. split; [done|]. simpl.
    split; [apply lookup_insert_eq|].
    assert (read (length (arrays σ))
              {| sessions := <[k := {| history := length (arrays σ);
                                        lastActive := now |}]> (sessions σ);
                 arrays := arrays σ ++ [[]];
                 proto_lastActive := proto_lastActive σ |} = []) as Hr.
    { unfold read. simpl. rewrite lookup_app_r by lia.
      by rewrite Nat.sub_diag. }
    split; [|split; [done|split]].
    + unfold history_of at 1. simpl. rewrite lookup_insert_eq. simpl.
      rewrite Hr. unfold history_of. by rewrite Hx.
    + done.
    + intros k' Hne. by rewrite lookup_insert_ne.
Qed.

(** C5 fails on the keys [sessions] inherits.  On a store without sessions,
    [sessions["constructor"]] is the built-in [Object], which is truthy: no
    session is created, [history] is [undefined], and the call ends in a
    [TypeError] answered with status 500. *)
Lemma getOrCreate_inherited_key :
  sessions initial !! "constructor" = None ∧
  getOrCreate 1 2 "constructor" initial = (initial, None) ∧
  relay 1 2 (say "Hello" (Some "constructor")) (answers "Hi") initial =
    (initial, Reply500 TypeError, None).
Proof. by vm_compute. Qed.

(** ** C7: a response without candidates *)

Lemma callGemini_no_candidates data :
  no_candidates data = true → callGemini (Resolved data) = inr fallback.
Proof.
  intros Hn.
  assert (first_content data = JUndefined) as Hc.
  { unfold first_content, opt_prop at 2. destruct data; try done.
    simpl in *. destruct (own_prop fields "candidates") as [| | | | | [|]|];
      done. }
  unfold callGemini. by rewrite Hc.
Qed.

Lemma resume_fallback h o σ :
  callGemini o = inr fallback →
  handler_resume h o σ =
    (push h fallback_turn σ, Reply200 (JStr "No response from AI.")).
Proof. intros Hg. unfold handler_resume. by rewrite Hg. Qed.

(** C7: when the upstream call resolves with a body that carries no
    candidate, [callGemini] returns the fallback object, and the handler
    pushes the fallback turn and answers with status 200 and the text
    ["No response from AI."]. *)
Theorem no_candidates_fallback h data σ :
  no_candidates data = true →
  callGemini (Resolved data) = inr fallback ∧
  handler_resume h (Resolved data) σ =
    (push h fallback_turn σ, Reply200 (JStr "No response from AI.")) ∧
  status (handler_resume h (Resolved data) σ).2 = 200.
Proof.
  intros Hn. pose proof (callGemini_no_candidates data Hn) as Hg.
  split; [done|]. rewrite (resume_fallback h _ σ Hg). done.
Qed.

Lemma no_candidates_fallback_witness :
  handler_resume 0 (Resolved (JObj [("candidates", JArr [])]))
    (push 0 (newContent (say "Hello" None)) one_session) =
    (push 0 fallback_turn (push 0 (newContent (say "Hello" None)) one_session),
     Reply200 (JStr "No response from AI.")).
Proof.
  apply (no_candidates_fallback 0%nat (JObj [("candidates", JArr [])])).
  reflexivity.
Defined.

(** ** C3: the history after N successful calls *)




(** ** C6: what the upstream call is given *)

(** The array made by [[...history]] is frozen from the start: no session
    and no waiting handler holds it as a history. *)
Lemma payload_frozen created now (req : request) s σ1 h p :
  wf s →
  handler_begin created now req (st s) = (σ1, Await h p) →
  frozen {| st := σ1; inflight := inflight s ++ [Pending h p] |} p.
Proof.
  intros [Hwf Hin] Hb.
  destruct (begin_await _ _ _ _ _ _ _ Hwf Hb)
    as (_ & Hs & _ & Hp & Hne & _).
  split; simpl; [lia|].
  intros [(k & y & Hy & He) | (q & Hq & He)]; simpl in *.
  - rewrite Hs in Hy.
    apply lookup_insert_Some in Hy as [[_ <-] | [_ Hy]]; simpl in *; [done|].
    destruct Hwf as [Hb' _].
    assert (history y < length (arrays (st s)))%nat; [|lia].
    apply Hb'. by exists k, y.
  - apply elem_of_app in Hq as [Hq | Hq].
    + apply Hin in Hq. lia.
    + apply list_elem_of_singleton in Hq as ->. simpl in He. done.
Qed.

(** C6: in every reachable state,
    - when a call reaches the upstream call, the array the request is given
      holds the session's turns so far followed by the new user turn, which
      is all the session then has stored; it is another array than the
      stored history, and whatever the server does next (this handler
      resuming, other calls, sweeps) its contents stay what they were;
    - when two calls for one session that had no turns are served one after
      the other and both succeed, the second upstream request is given
      exactly user1, assistant1, user2. *)
Theorem upstream_payload_is_full_history_snapshot evs s :
  run evs boot = Some s →
  (∀ created now (req : request) s1,
     step (Arrive created now req) s = Some (s1, None) →
     ∃ h p,
       inflight s1 = inflight s ++ [Pending h p] ∧
       read p (st s1) =
         history_of (st s) (the_sessionId req) ++ [newContent req] ∧
       read p (st s1) = history_of (st s1) (the_sessionId req) ∧
       h ≠ p ∧
       ∀ later s', run later s1 = Some s' → read p (st s') = read p (st s1)) ∧
  (∀ c1 c2 σ1 r1 p1 σ2 r2 p2,
     the_sessionId (c_req c2) = the_sessionId (c_req c1) →
     history_of (st s) (the_sessionId (c_req c1)) = [] →
     relay_call c1 (st s) = (σ1, r1, p1) → status r1 = 200 →
     relay_call c2 σ1 = (σ2, r2, p2) → status r2 = 200 →
     p2 = Some [newContent (c_req c1); assistant_turn (c_outcome c1);
                newContent (c_req c2)]).
Proof.
  intros Hrun. pose proof (reachable_wf _ _ Hrun) as Hwf. split.
  - intros created now req s1 Hstep.
    pose proof (step_wf _ _ _ _ Hwf Hstep) as Hwf1.
    simpl in Hstep.
    destruct (handler_begin created now req (st s)) as [σ1 [r | h p]] eqn:Hb;
      [discriminate|]. injection Hstep as <-.
    pose proof (payload_frozen _ _ _ _ _ _ _ Hwf Hb) as Hfr.
    destruct Hwf as [Hwfs Hin].
    destruct (begin_await _ _ _ _ _ _ _ Hwfs Hb)
      as (_ & Hs & _ & _ & Hne & Hh & Hp & _).
    exists h, p. simpl. split; [done|]. split; [congruence|].
    split; [|split; [done|]].
    + unfold history_of. rewrite Hs, lookup_insert_eq. done.
    + intros later s' Hlater.
      by destruct (run_frozen _ _ _ _ Hwf1 Hfr Hlater) as [_ ?].
  - intros c1 c2 σ1 r1 p1 σ2 r2 p2 Hk Hempty H1 Hr1 H2 Hr2.
    destruct Hwf as [Hwfs _]. unfold relay_call in *.
    pose proof (relay_wf_state _ _ _ _ _ _ _ _ Hwfs H1) as Hwf1.
    destruct (relay_200 _ _ _ _ _ _ _ _ Hwfs H1 Hr1) as (_ & Hh1 & _).
    destruct (relay_200 _ _ _ _ _ _ _ _ Hwf1 H2 Hr2) as (Hp2 & _).
    rewrite Hp2, Hk, Hh1, Hempty. done.
Qed.

Lemma upstream_payload_is_full_history_snapshot_witness :
  (relay_call {| c_created := 3; c_now := 4; c_req := say "And then?" None;
                 c_outcome := answers "That is all" |}
     (relay 1 2 (say "Hello" None) (answers "Hi") initial).1.1).2 =
    Some [ {| role := user; parts := JArr [JObj [("text", JStr "Hello")]] |};
           {| role := assistant; parts := JArr [JObj [("text", JStr "Hi")]] |};
           {| role := user;
              parts := JArr [JObj [("text", JStr "And then?")]] |} ] ∧
  read 1 (st (after [Arrive 1 2 (say "Hello" None); Settle 0 (answers "Hi")])) =
    read 1 (st (after [Arrive 1 2 (say "Hello" None)])).
Proof.
  destruct (upstream_payload_is_full_history_snapshot [] boot eq_refl)
    as [Hsnap Htwo].
  split.
  - apply (Htwo
             {| c_created := 1; c_now := 2; c_req := say "Hello" None;
                c_outcome := answers "Hi" |}
             {| c_created := 3; c_now := 4; c_req := say "And then?" None;
                c_outcome := answers "That is all" |}
             (relay 1 2 (say "Hello" None) (answers "Hi") initial).1.1
             (Reply200 (JStr "Hi"))
             (Some [newContent (say "Hello" None)])
             (relay_call {| c_created := 3; c_now := 4;
                            c_req := say "And then?" None;
                            c_outcome := answers "That is all" |}
                (relay 1 2 (say "Hello" None) (answers "Hi") initial).1.1).1.1
             (Reply200 (JStr "That is all"))); reflexivity.
  - destruct (Hsnap 1 2 (say "Hello" None)
                (after [Arrive 1 2 (say "Hello" None)]) eq_refl)
      as (h & p & Hin & _ & _ & _ & Hkeep).
    vm_compute in Hin. injection Hin as <- <-.
    apply (Hkeep [Settle 0 (answers "Hi")]). reflexivity.
Defined.

(** ** C4: failure of the upstream call *)

(** C4, as stated, fails for a malformed response.  When the upstream
    answers 2xx with a body that is not JSON, axios hands the raw text over
    as a string; [data?.candidates] is [undefined], the fallback object
    stands in, the assistant turn is pushed and the reply has status 200. *)
Lemma malformed_response_is_answered :
  relay 1 2 (say "Hello" None) (Resolved (JStr "<html>")) initial =
    ({| sessions := {[ "default" := {| history := 0%nat; lastActive := 2 |} ]};
        arrays := [ [newContent (say "Hello" None); fallback_turn];
                    [newContent (say "Hello" None)] ];
        proto_lastActive := None |},
     Reply200 (JStr "No response from AI."),
     Some [newContent (say "Hello" None)]) ∧
  status (relay 1 2 (say "Hello" None) (Resolved (JStr "<html>")) initial).1.2
    ≠ 500.
Proof. by vm_compute. Qed.

(** A response whose content block has no [parts] is another matter: line 95
    pushes an assistant turn without parts, and line 97 then throws. *)
Lemma content_without_parts :
  relay 1 2 (say "Hello" None)
    (Resolved (JObj [("candidates",
                      JArr [JObj [("content", JObj [("role", JStr "model")])]])]))
    initial =
    ({| sessions := {[ "default" := {| history := 0%nat; lastActive := 2 |} ]};
        arrays := [ [newContent (say "Hello" None);
                     {| role := assistant; parts := JUndefined |}];
                    [newContent (say "Hello" None)] ];
        proto_lastActive := None |},
     Reply500 TypeError,
     Some [newContent (say "Hello" None)]).
Proof. by vm_compute. Qed.

(** C4, amended: when the upstream call itself fails, that is when
    [axios.post] rejects (network error, timeout, status outside 2xx), the
    reply is 500 with the message of line 57; the resumed handler changes
    nothing, in whatever state it resumes, so the state after the call is
    the one in which the upstream call was made, and the session's turns are
    then the earlier ones followed by the user turn of this call: the user
    turn stays and no assistant turn is pushed.  A response that resolves is
    not a failure when [data?.candidates?.[0]?.content] is missing or falsy,
    as it is for every body that is not JSON (a string): the fallback turn
    is pushed and the reply is 200 with the fallback text. *)
Theorem upstream_rejection_keeps_user_turn
    evs s created now (req : request) σ1 h p o :
  run evs boot = Some s →
  handler_begin created now req (st s) = (σ1, Await h p) →
  rejects o = true →
  relay created now req o (st s) =
    (σ1, Reply500 (Error "Failed to get AI response"),
     Some (history_of (st s) (the_sessionId req) ++ [newContent req])) ∧
  (∀ σ, handler_resume h o σ =
          (σ, Reply500 (Error "Failed to get AI response"))) ∧
  status (Reply500 (Error "Failed to get AI response")) = 500 ∧
  history_of σ1 (the_sessionId req) =
    history_of (st s) (the_sessionId req) ++ [newContent req] ∧
  (∀ h' data σ,
     truthy (first_content data) = false →
     handler_resume h' (Resolved data) σ =
       (push h' fallback_turn σ, Reply200 (JStr "No response from AI."))) ∧
  (∀ text, truthy (first_content (JStr text)) = false).
Proof.
  intros Hrun Hb Ho.
  destruct (reachable_wf _ _ Hrun) as [Hwf _].
  assert (callGemini o = inl (Error "Failed to get AI response")) as Hg.
  { by destruct o. }
  destruct (relay_await _ _ _ o _ _ _ _ Hwf Hb) as (σ2 & r & E & Hr & _ & Hh).
  rewrite (resume_rejected _ _ _ _ Hg) in Hr. injection Hr as <- <-.
  rewrite Hg in Hh. simpl in Hh.
  split; [exact E|]. split; [intros σ; by apply resume_rejected|].
  split; [done|]. split; [exact Hh|]. split; [|done].
  intros h' data σ Hc. apply resume_fallback.
  unfold callGemini. by rewrite Hc.
Qed.

Lemma upstream_rejection_keeps_user_turn_witness :
  relay 1 2 (say "Hello" None) TimedOut initial =
    ((handler_begin 1 2 (say "Hello" None) initial).1,
     Reply500 (Error "Failed to get AI response"),
     Some [newContent (say "Hello" None)]) ∧
  history_of (handler_begin 1 2 (say "Hello" None) initial).1 "default" =
    [newContent (say "Hello" None)].
Proof.
  destruct (upstream_rejection_keeps_user_turn [] boot 1 2 (say "Hello" None)
              (handler_begin 1 2 (say "Hello" None) initial).1 0%nat 1%nat
              TimedOut eq_refl eq_refl eq_refl)
    as (Hrelay & _ & _ & Hhist & _).
  split; [exact Hrelay | exact Hhist].
Defined.

(** ** C8: the assistant turn and the text returned *)

(** C8, as stated, fails when the first fragment of the content block is
    not a text fragment: line 97 reads [parts[0].text], which is
    [undefined] there, although a later fragment carries a text. *)
Lemma first_fragment_without_text :
  spec_first_text_fragment picture_then_text = JStr "A picture" ∧
  (relay 1 2 (say "Draw" None) (Resolved (candidate picture_then_text))
     initial).1.2 = Reply200 JUndefined.
Proof. by vm_compute. Qed.

(** C8, amended: a call answered with status 200 has pushed, after the user
    turn, an assistant turn whose parts are those of the first candidate's
    content block (of the fallback object when there is none), and the
    value returned is the [text] property of the first of these parts,
    whatever it is: the block's first text fragment when that first part is
    a text fragment, and [undefined] when that first part has no [text]
    property, whatever parts follow it. *)
Theorem reply_is_text_of_first_fragment evs s created now (req : request) o σ' r pl :
  run evs boot = Some s →
  relay created now req o (st s) = (σ', r, pl) →
  status r = 200 →
  ∃ data,
    o = Resolved data ∧
    let block :=
      if truthy (first_content data) then first_content data else fallback in
    let ps := get_prop block "parts" in
    history_of σ' (the_sessionId req) =
      history_of (st s) (the_sessionId req) ++
      [newContent req; {| role := assistant; parts := ps |}] ∧
    r = Reply200 (get_prop (get_index0 ps) "text") ∧
    (∀ v rest, ps = JArr (v :: rest) → is_text_fragment v = true →
               r = Reply200 (spec_first_text_fragment (v :: rest))) ∧
    (∀ v rest, ps = JArr (v :: rest) → get_prop v "text" = JUndefined →
               r = Reply200 JUndefined).
Proof.
  intros Hrun H H200.
  destruct (reachable_wf _ _ Hrun) as [Hwf _].
  destruct (relay_200 _ _ _ _ _ _ _ _ Hwf H H200) as (_ & Hh & data & -> & Hr).
  exists data. split; [done|]. simpl.
  split; [exact Hh|]. split; [exact Hr|]. split.
  - intros v rest Hps Ht. rewrite Hr. unfold aiResponse_parts. simpl.
    rewrite Hps. simpl. by rewrite Ht.
  - intros v rest Hps Ht. rewrite Hr. unfold aiResponse_parts. simpl.
    rewrite Hps. simpl. by rewrite Ht.
Qed.

Lemma reply_is_text_of_first_fragment_witness :
  history_of (relay 1 2 (say "Hello" None) (answers "Hi") initial).1.1
    "default" =
    [ newContent (say "Hello" None);
      {| role := assistant; parts := JArr [JObj [("text", JStr "Hi")]] |} ] ∧
  (relay 1 2 (say "Hello" None) (answers "Hi") initial).1.2 =
    Reply200 (JStr "Hi").
Proof.
  destruct (reply_is_text_of_first_fragment [] boot 1 2 (say "Hello" None)
              (answers "Hi")
              (relay 1 2 (say "Hello" None) (answers "Hi") initial).1.1
              (relay 1 2 (say "Hello" None) (answers "Hi") initial).1.2
              (Some [newContent (say "Hello" None)])
              eq_refl eq_refl eq_refl)
    as (data & Hd & Hh & Hr & _).
  injection Hd as <-. split; [exact Hh | exact Hr].
Defined.

(** ** C10: the fallback reply is stored *)

Lemma relay_payload created now req o σ σ' r pl :
  relay created now req o σ = (σ', r, Some pl) →
  ∃ σ1 h p, handler_begin created now req σ = (σ1, Await h p).
Proof.
  unfold relay.
  destruct (handler_begin created now req σ) as [σ1 [r1 | h p]]; [done|].
  eauto.
Qed.

(** C10: when the upstream call of a call resolves without candidates, the
    reply is 200 with the fallback text, the session's turns grow by exactly
    two, the user turn and the fallback turn, and any later call for that
    session that reaches the upstream call (after any calls served in
    between) hands it a payload that starts with these turns, the fallback
    turn among them. *)
Theorem fallback_turn_is_stored_and_replayed evs s c1 data σ1 r1 pl1 :
  run evs boot = Some s →
  c_outcome c1 = Resolved data →
  no_candidates data = true →
  relay_call c1 (st s) = (σ1, r1, Some pl1) →
  let k := the_sessionId (c_req c1) in
  r1 = Reply200 (JStr "No response from AI.") ∧
  history_of σ1 k =
    history_of (st s) k ++ [newContent (c_req c1); fallback_turn] ∧
  length (history_of σ1 k) = (length (history_of (st s) k) + 2)%nat ∧
  ∀ later σ2 out c2 σ3 r2 pl2,
    serve later σ1 = (σ2, out) →
    the_sessionId (c_req c2) = k →
    relay_call c2 σ2 = (σ3, r2, Some pl2) →
    (history_of (st s) k ++ [newContent (c_req c1); fallback_turn])
      `prefix_of` pl2 ∧
    fallback_turn ∈ pl2.
Proof.
  intros Hrun Ho Hn H1 k. subst k.
  destruct (reachable_wf _ _ Hrun) as [Hwf _].
  unfold relay_call in H1. rewrite Ho in H1.
  pose proof (callGemini_no_candidates data Hn) as Hg.
  destruct (relay_payload _ _ _ _ _ _ _ _ H1) as (σb & h & p & Hb).
  destruct (relay_await _ _ _ (Resolved data) _ _ _ _ Hwf Hb)
    as (σ2 & r & E & Hr & _ & Hh).
  rewrite E in H1. injection H1 as -> -> <-.
  rewrite (resume_fallback h _ σb Hg) in Hr. injection Hr as Hσ Hr1.
  assert (assistant_turn (Resolved data) = fallback_turn) as Ha.
  { unfold assistant_turn, aiResponse_parts. by rewrite Hg. }
  rewrite Hg, Ha in Hh. simpl in Hh.
  split; [done|]. split; [exact Hh|]. split.
  { rewrite Hh, length_app. simpl. lia. }
  intros later σ2 out c2 σ3 r2 pl2 Hserve Hk H2.
  pose proof (relay_wf_state _ _ _ _ _ _ _ _ Hwf E) as Hwf1.
  pose proof (serve_wf_state _ _ _ _ Hwf1 Hserve) as Hwf2.
  pose proof (serve_prefix _ _ _ _ (the_sessionId (c_req c1)) Hwf1 Hserve)
    as Hpre.
  unfold relay_call in H2.
  destruct (relay_payload _ _ _ _ _ _ _ _ H2) as (σc & h2 & p2 & Hb2).
  destruct (relay_await _ _ _ (c_outcome c2) _ _ _ _ Hwf2 Hb2)
    as (σ4 & r4 & E2 & _).
  rewrite E2 in H2. injection H2 as _ _ <-. rewrite Hk.
  rewrite Hh in Hpre.
  assert ((history_of (st s) (the_sessionId (c_req c1)) ++
           [newContent (c_req c1); fallback_turn]) `prefix_of`
          (history_of σ2 (the_sessionId (c_req c1)) ++ [newContent (c_req c2)]))
    as Hp2.
  { by apply prefix_app_r. }
  split; [exact Hp2|].
  destruct Hp2 as [rest ->].
  apply elem_of_app. left. apply elem_of_app. right.
  apply elem_of_cons. right. apply elem_of_cons. by left.
Qed.

Lemma fallback_turn_is_stored_and_replayed_witness :
  (relay_call unanswered initial).1.2 = Reply200 (JStr "No response from AI.") ∧
  history_of (relay_call unanswered initial).1.1 "default" =
    [newContent (say "Hello" None); fallback_turn] ∧
  fallback_turn ∈
    [newContent (say "Hello" None); fallback_turn;
     newContent (say "Anyone?" None)].
Proof.
  destruct (fallback_turn_is_stored_and_replayed [] boot unanswered
              (JObj [("candidates", JArr [])])
              (relay_call unanswered initial).1.1
              (relay_call unanswered initial).1.2
              [newContent (say "Hello" None)]
              eq_refl eq_refl eq_refl eq_refl)
    as (Hr & Hh & _ & Hlater).
  split; [exact Hr|]. split; [exact Hh|].
  apply (Hlater [] (relay_call unanswered initial).1.1 [] asked_again
           (relay_call asked_again (relay_call unanswered initial).1.1).1.1
           (Reply200 (JStr "Here"))
           [newContent (say "Hello" None); fallback_turn;
            newContent (say "Anyone?" None)]);
    reflexivity.
Defined.

(** * Further properties of the code *)

(** ** The sweep, composed with itself and with the handler *)

(** X1: two sweeps in a row, in either order of their clock readings, leave
    what one sweep at the later reading leaves; in particular a sweep
    repeated at the same reading changes nothing more. *)
Theorem sweep_twice now1 now2 σ :
  sweep now1 σ ≫= sweep now2 = sweep (now1 `max` now2) σ.
Proof.
  rewrite !sweep_filter. simpl. rewrite sweep_filter. simpl.
  do 2 f_equal. rewrite map_filter_filter.
  apply map_filter_ext. intros k x _. unfold expired. simpl. lia.
Qed.

(** X2: a call that gets as far as the upstream call at clock reading [now]
    leaves its session with [lastActive = now], whatever line 75 read; a
    sweep at reading [t] keeps that session, with its turns, as long as
    [t - now] is at most the expiry, and removes it when [t - now] is
    greater. *)
Theorem touched_session_survives_until_expiry
    evs s created now (req : request) σ1 h p t σ2 :
  run evs boot = Some s →
  handler_begin created now req (st s) = (σ1, Await h p) →
  sweep t σ1 = Some σ2 →
  let k := the_sessionId req in
  sessions σ1 !! k = Some {| history := h; lastActive := now |} ∧
  (t - now ≤ SESSION_EXPIRY →
     sessions σ2 !! k = Some {| history := h; lastActive := now |} ∧
     history_of σ2 k = history_of σ1 k) ∧
  (SESSION_EXPIRY < t - now → sessions σ2 !! k = None).
Proof.
  intros Hrun Hb Hsw k. subst k.
  destruct (reachable_wf _ _ Hrun) as [Hwf _].
  destruct (begin_await _ _ _ _ _ _ _ Hwf Hb) as (_ & Hs & _).
  assert (sessions σ1 !! the_sessionId req =
          Some {| history := h; lastActive := now |}) as Hk.
  { rewrite Hs. apply lookup_insert_eq. }
  rewrite sweep_filter in Hsw. injection Hsw as <-.
  split; [done|]. split.
  - intros Ht.
    assert (filter (λ kv : string * session, ¬ expired t kv.2) (sessions σ1)
              !! the_sessionId req =
            Some {| history := h; lastActive := now |}) as Hk2.
    { apply map_lookup_filter_Some. split; [done|].
      unfold expired. simpl. lia. }
    split; [exact Hk2|]. unfold history_of. simpl. by rewrite Hk2, Hk.
  - intros Ht. simpl. apply map_lookup_filter_None. right.
    intros x Hx. assert (x = {| history := h; lastActive := now |}) as ->
      by congruence.
    unfold expired. simpl. lia.
Qed.

Lemma touched_session_survives_until_expiry_witness :
  sessions (default initial (sweep (SESSION_EXPIRY + 2) greeted)) !! "default" =
    Some {| history := 0%nat; lastActive := 2 |} ∧
  sessions (default initial (sweep (SESSION_EXPIRY + 3) greeted)) !! "default" =
    None.
Proof.
  split.
  - destruct (touched_session_survives_until_expiry [] boot 1 2
                (say "Hello" None) greeted 0%nat 1%nat (SESSION_EXPIRY + 2)
                (default initial (sweep (SESSION_EXPIRY + 2) greeted))
                eq_refl eq_refl eq_refl) as (_ & Hkeep & _).
    apply Hkeep. lia.
  - destruct (touched_session_survives_until_expiry [] boot 1 2
                (say "Hello" None) greeted 0%nat 1%nat (SESSION_EXPIRY + 3)
                (default initial (sweep (SESSION_EXPIRY + 3) greeted))
                eq_refl eq_refl eq_refl) as (_ & _ & Hdrop).
    apply Hdrop. lia.
Defined.

(** ** The guard and the two clock readings *)

(** X9: for a request whose body was parsed, the handler answers 400
    exactly when the prompt is falsy and no file came in (so an image
    alone, or any truthy prompt, passes the guard), whether or not its
    session id converts to a property key; a request without a parsed body
    never gets that far and is answered 500; and whenever the handler
    answers 400 the state is the one it started in. *)
Theorem rejected_iff_nothing_supplied created now σ :
  (∀ req : request,
     (handler_begin created now req σ).2 = Done Reply400 ↔
     truthy (prompt req) = false ∧ file req = None) ∧
  (∀ p f,
     (handler_begin created now (Unkeyable p f) σ).2 = Done Reply400 ↔
     truthy p = false ∧ f = None) ∧
  (handler_begin created now NoBody σ).2 = Done (Reply500 TypeError) ∧
  (∀ inc,
     (handler_begin created now inc σ).2 = Done Reply400 →
     (handler_begin created now inc σ).1 = σ).
Proof.
  assert (∀ p (f : option upload),
            negb (truthy p) && negb (bool_decide (is_Some f)) = true ↔
            truthy p = false ∧ f = None) as Hguard.
  { intros p f. rewrite andb_true_iff, !negb_true_iff, bool_decide_eq_false.
    split; intros [? Hf]; (split; [done|]).
    - destruct f; [|done]. exfalso. apply Hf. eauto.
    - rewrite Hf. by intros [? ?]. }
  assert (∀ req : request,
            (handler_begin created now req σ).2 = Done Reply400 ↔
            truthy (prompt req) = false ∧ file req = None) as Hparsed.
  { intros req. rewrite <- Hguard. unfold handler_begin.
    destruct (negb (truthy (prompt req)) && negb (bool_decide (is_Some (file req))));
      [done|].
    destruct (getOrCreate created now (the_sessionId req) σ) as [σ1 [h|]];
      simpl; split; done. }
  assert (∀ p f,
            (handler_begin created now (Unkeyable p f) σ).2 = Done Reply400 ↔
            truthy p = false ∧ f = None) as Hunkey.
  { intros p f. rewrite <- Hguard. unfold handler_begin.
    destruct (negb (truthy p) && negb (bool_decide (is_Some f))); simpl;
      split; done. }
  split; [exact Hparsed|]. split; [exact Hunkey|]. split; [done|].
  intros [req | p f |] H.
  - apply Hparsed, Hguard in H. unfold handler_begin. by rewrite H.
  - apply Hunkey, Hguard in H. unfold handler_begin. by rewrite H.
  - done.
Qed.

(** X13: the reading of the clock at line 75 is never seen: line 78
    overwrites it before anything reads it, so the handler behaves the same
    whatever that reading is. *)
Theorem creation_reading_is_dead created created' now req σ :
  handler_begin created now req σ = handler_begin created' now req σ.
Proof.
  destruct req as [req | p f |]; [|done|done].
  destruct (supplied req) eqn:Hs.
  2: { by rewrite !begin_rejected. }
  rewrite !begin_guard by done.
  destruct (slot_truthy (get_slot σ (the_sessionId req))) eqn:Ht.
  - unfold getOrCreate. by rewrite Ht.
  - by rewrite !getOrCreate_fresh.
Qed.

(** ** What resuming a handler can and cannot do *)

Lemma resume_sessions h o σ :
  sessions (handler_resume h o σ).1 = sessions σ ∧
  proto_lastActive (handler_resume h o σ).1 = proto_lastActive σ ∧
  length (arrays (handler_resume h o σ).1) = length (arrays σ).
Proof.
  destruct (callGemini o) as [e|ai] eqn:Ho.
  - by rewrite (resume_rejected _ _ _ _ Ho).
  - destruct (resume_resolved h _ σ _ Ho) as (r & -> & _). simpl.
    by rewrite length_alter.
Qed.

(** The reply depends on the upstream outcome alone. *)
Lemma resume_reply h o σ h' σ' :
  (handler_resume h o σ).2 = (handler_resume h' o σ').2.
Proof.
  unfold handler_resume. destruct (callGemini o) as [e|ai]; [done|].
  repeat case_match; done.
Qed.

(** ** Arrays only grow *)

Lemma grows_refl σ : grows σ σ.
Proof. by intros l. Qed.

Lemma grows_trans σ1 σ2 σ3 : grows σ1 σ2 → grows σ2 σ3 → grows σ1 σ3.
Proof. intros H1 H2 l. etrans; [apply H1 | apply H2]. Qed.

Lemma grows_arrays σ σ' : arrays σ' = arrays σ → grows σ σ'.
Proof. intros He l. unfold read. by rewrite He. Qed.

Lemma grows_push h t σ : grows σ (push h t σ).
Proof.
  intros l. unfold read, push. simpl.
  destruct (decide (h = l)) as [-> | Hne].
  - rewrite list_lookup_alter_eq. destruct (arrays σ !! l); simpl; [|done].
    by apply prefix_app_r.
  - by rewrite list_lookup_alter_ne.
Qed.

Lemma grows_app σ σ' extra : arrays σ' = arrays σ ++ extra → grows σ σ'.
Proof.
  intros He l. unfold read. rewrite He.
  destruct (arrays σ !! l) as [a|] eqn:Ha.
  - by rewrite (lookup_app_l_Some _ _ _ _ Ha).
  - apply prefix_nil.
Qed.

Lemma arrays_set_lastActive k now σ :
  arrays (set_lastActive k now σ) = arrays σ.
Proof.
  unfold set_lastActive. destruct (get_slot σ k) as [x | b | n |]; try done.
  by destruct (String.eqb b "__proto__").
Qed.

Lemma grows_getOrCreate created now k σ :
  grows σ (getOrCreate created now k σ).1.
Proof.
  unfold getOrCreate. simpl.
  destruct (negb (slot_truthy (get_slot σ k))).
  - eapply grows_app. rewrite arrays_set_lastActive. simpl. done.
  - apply grows_arrays. by rewrite arrays_set_lastActive.
Qed.

Lemma grows_begin created now inc σ :
  grows σ (handler_begin created now inc σ).1.
Proof.
  destruct inc as [req | p f |]; unfold handler_begin.
  2: { destruct (negb (truthy p) && negb (bool_decide (is_Some f)));
         apply grows_refl. }
  2: { apply grows_refl. }
  destruct (negb (truthy (prompt req)) && negb (bool_decide (is_Some (file req))));
    [apply grows_refl|].
  pose proof (grows_getOrCreate created now (the_sessionId req) σ) as Hg.
  destruct (getOrCreate created now (the_sessionId req) σ) as [σ1 [h|]];
    simpl in *; [|done].
  eapply grows_trans; [exact Hg|].
  eapply grows_trans; [apply (grows_push h (newContent req))|].
  by eapply grows_app.
Qed.

Lemma grows_resume h o σ : grows σ (handler_resume h o σ).1.
Proof.
  destruct (callGemini o) as [e|ai] eqn:Ho.
  - rewrite (resume_rejected _ _ _ _ Ho). apply grows_refl.
  - destruct (resume_resolved h _ σ _ Ho) as (r & -> & _). apply grows_push.
Qed.

Lemma grows_step ev s s' r : step ev s = Some (s', r) → grows (st s) (st s').
Proof.
  destruct ev as [created now req | i o | now]; simpl.
  - pose proof (grows_begin created now req (st s)) as Hg.
    destruct (handler_begin created now req (st s)) as [σ [r1 | h p]];
      intros [= <- _]; done.
  - destruct (inflight s !! i) as [p|]; [|intros [= <- _]; apply grows_refl].
    pose proof (grows_resume (p_history p) o (st s)) as Hg.
    destruct (handler_resume (p_history p) o (st s)) as [σ r'].
    intros [= <- _]. done.
  - rewrite sweep_filter. intros [= <- _]. by apply grows_arrays.
Qed.

(** X4: turns are only ever appended.  Whatever events the server goes
    through, from any state, every array keeps the turns it had, in place,
    and only gains turns at its end; so a session that still has the same
    history array afterwards has its earlier turns as a prefix of its later
    ones. *)
Theorem turns_are_only_appended evs s s' :
  run evs s = Some s' →
  (∀ l, read l (st s) `prefix_of` read l (st s')) ∧
  (∀ k x x', sessions (st s) !! k = Some x → sessions (st s') !! k = Some x' →
             history x' = history x →
             history_of (st s) k `prefix_of` history_of (st s') k).
Proof.
  intros Hrun.
  assert (grows (st s) (st s')) as Hg.
  { revert s Hrun. induction evs as [|ev evs IH]; intros s; simpl.
    - intros [= <-]. apply grows_refl.
    - destruct (step ev s) as [[s1 r]|] eqn:Hstep; [|done].
      intros Hrun. eapply grows_trans; [by eapply grows_step | by apply IH]. }
  split; [exact Hg|].
  intros k x x' Hx Hx' He. unfold history_of. rewrite Hx, Hx', He. apply Hg.
Qed.

Lemma turns_are_only_appended_witness :
  read 0 (st (after [Arrive 1 2 (say "Hello" None)]))
    `prefix_of`
  read 0 (st (after [Arrive 1 2 (say "Hello" None); Settle 0 (answers "Hi");
                     Tick (SESSION_EXPIRY + 3);
                     Arrive 5 (SESSION_EXPIRY + 4) (say "Again" None)])).
Proof.
  destruct (turns_are_only_appended
              [Settle 0 (answers "Hi"); Tick (SESSION_EXPIRY + 3);
               Arrive 5 (SESSION_EXPIRY + 4) (say "Again" None)]
              (after [Arrive 1 2 (say "Hello" None)])
              (after [Arrive 1 2 (say "Hello" None); Settle 0 (answers "Hi");
                      Tick (SESSION_EXPIRY + 3);
                      Arrive 5 (SESSION_EXPIRY + 4) (say "Again" None)])
              eq_refl) as [Hheap _].
  apply Hheap.
Defined.

(** ** Calls that overlap with a sweep or with each other *)

Lemma arrive_suspended created now req s s1 :
  step (Arrive created now req) s = Some (s1, None) →
  ∃ h p, handler_begin created now req (st s) = (st s1, Await h p) ∧
         inflight s1 = inflight s ++ [Pending h p].
Proof.
  simpl. destruct (handler_begin created now req (st s)) as [σ [r | h p]];
    [done|]. intros [= <-]. by exists h, p.
Qed.

(** X3: a session can be swept while one of its calls waits for the
    upstream.  The handler then still answers exactly as it would have
    (the reply depends on the upstream outcome alone), but it does not put
    the session back: the store has no session under that id afterwards,
    the turns of the call are lost with the evicted history, and the next
    call for that id hands the upstream nothing but its own user turn. *)
Theorem eviction_during_call evs s created now (req : request) s1 t s2 o s3 r :
  run evs boot = Some s →
  step (Arrive created now req) s = Some (s1, None) →
  SESSION_EXPIRY < t - now →
  step (Tick t) s1 = Some (s2, None) →
  step (Settle (length (inflight s)) o) s2 = Some (s3, r) →
  let k := the_sessionId req in
  (∃ h, r = Some (handler_resume h o (st s1)).2) ∧
  sessions (st s2) !! k = None ∧
  sessions (st s3) !! k = None ∧
  history_of (st s3) k = [] ∧
  inflight s3 = inflight s ∧
  (∀ created' now' req' σ' h' p',
     the_sessionId req' = k →
     handler_begin created' now' req' (st s3) = (σ', Await h' p') →
     read p' σ' = [newContent req']).
Proof.
  intros Hrun Ha Ht Htick Hsettle k. subst k.
  pose proof (reachable_wf _ _ Hrun) as Hwf.
  pose proof (step_wf _ _ _ _ Hwf Ha) as Hwf1.
  pose proof (step_wf _ _ _ _ Hwf1 Htick) as Hwf2.
  pose proof (step_wf _ _ _ _ Hwf2 Hsettle) as [Hwf3 _].
  destruct (arrive_suspended _ _ _ _ _ Ha) as (h & p & Hb & Hin).
  destruct Hwf as [Hwfs _].
  destruct (begin_await _ _ _ _ _ _ _ Hwfs Hb) as (_ & Hs & _).
  simpl in Htick. rewrite sweep_filter in Htick. injection Htick as <-.
  assert (filter (λ kv : string * session, ¬ expired t kv.2) (sessions (st s1))
            !! the_sessionId req = None) as Hgone.
  { apply map_lookup_filter_None. right. intros x Hx.
    rewrite Hs, lookup_insert_eq in Hx. injection Hx as <-.
    unfold expired. simpl. lia. }
  simpl in Hsettle. rewrite Hin in Hsettle.
  rewrite lookup_app_r in Hsettle by lia.
  rewrite Nat.sub_diag in Hsettle. simpl in Hsettle.
  pose proof (resume_sessions h o
    {| sessions := filter (λ kv : string * session, ¬ expired t kv.2)
                     (sessions (st s1));
       arrays := arrays (st s1);
       proto_lastActive := proto_lastActive (st s1) |}) as (Hrs & _).
  pose proof (resume_reply h o
    {| sessions := filter (λ kv : string * session, ¬ expired t kv.2)
                     (sessions (st s1));
       arrays := arrays (st s1);
       proto_lastActive := proto_lastActive (st s1) |} h (st s1)) as Hrr.
  destruct (handler_resume h o _) as [σ3 r3] eqn:Hr in Hsettle, Hrs, Hrr.
  injection Hsettle as <- <-. simpl in *.
  assert (sessions σ3 !! the_sessionId req = None) as Hgone3
    by (by rewrite Hrs).
  split; [exists h; by rewrite Hrr|].
  split; [done|]. split; [done|].
  split; [unfold history_of; by rewrite Hgone3|].
  split; [by rewrite delete_middle, app_nil_r|].
  intros created' now' req' σ' h' p' Hk Hb'.
  destruct (begin_await _ _ _ _ _ _ _ Hwf3 Hb')
    as (_ & _ & _ & _ & _ & Hh & Hp & _).
  rewrite Hp, Hh, Hk. unfold history_of. by rewrite Hgone3.
Qed.

Lemma eviction_during_call_witness :
  sessions (st (after swept_while_waiting)) !! "default" = None ∧
  history_of (st (after swept_while_waiting)) "default" = [] ∧
  inflight (after swept_while_waiting) = [].
Proof.
  destruct (eviction_during_call [] boot 1 2 (say "Hello" None)
              (after [Arrive 1 2 (say "Hello" None)])
              (SESSION_EXPIRY + 3)
              (after [Arrive 1 2 (say "Hello" None); Tick (SESSION_EXPIRY + 3)])
              (answers "Hi")
              (after swept_while_waiting)
              (Some (Reply200 (JStr "Hi")))
              eq_refl eq_refl ltac:(lia) eq_refl eq_refl)
    as (_ & _ & Hgone & Hturns & Hin & _).
  split; [exact Hgone|]. split; [exact Hturns | exact Hin].
Defined.

(** X5: two calls for one session that overlap (the second arrives while
    the first waits for the upstream) are not serialised.  The second
    upstream request carries the first call's user turn but not its answer,
    and once both upstream calls have resolved, in the order the calls
    arrived, the session holds user1, user2, assistant1, assistant2 after
    its earlier turns. *)
Theorem overlapping_calls_interleave
    evs s c1 n1 req1 c2 n2 req2 s1 s2 d1 d2 s3 r1 s4 r2 :
  run evs boot = Some s →
  the_sessionId req2 = the_sessionId req1 →
  step (Arrive c1 n1 req1) s = Some (s1, None) →
  step (Arrive c2 n2 req2) s1 = Some (s2, None) →
  step (Settle (length (inflight s)) (Resolved d1)) s2 = Some (s3, r1) →
  step (Settle (length (inflight s)) (Resolved d2)) s3 = Some (s4, r2) →
  let k := the_sessionId req1 in
  ∃ h p1 p2,
    inflight s2 = inflight s ++ [Pending h p1; Pending h p2] ∧
    read p1 (st s2) = history_of (st s) k ++ [newContent req1] ∧
    read p2 (st s2) =
      history_of (st s) k ++ [newContent req1; newContent req2] ∧
    history_of (st s4) k =
      history_of (st s) k ++
      [newContent req1; newContent req2;
       assistant_turn (Resolved d1); assistant_turn (Resolved d2)] ∧
    inflight s4 = inflight s.
Proof.
  intros Hrun Hk Ha1 Ha2 Hs1 Hs2 k. subst k.
  pose proof (reachable_wf _ _ Hrun) as Hwf.
  pose proof (step_wf _ _ _ _ Hwf Ha1) as Hwf1.
  destruct (arrive_suspended _ _ _ _ _ Ha1) as (h & p1 & Hb1 & Hin1).
  destruct (arrive_suspended _ _ _ _ _ Ha2) as (h2 & p2 & Hb2 & Hin2).
  destruct Hwf as [Hwfs _]. destruct Hwf1 as [Hwfs1 _].
  destruct (begin_await _ _ _ _ _ _ _ Hwfs Hb1)
    as (_ & Hse1 & Hl1 & Hp1 & Hne1 & Hh1 & Hr1 & _).
  assert (sessions (st s1) !! the_sessionId req1 =
          Some {| history := h; lastActive := n1 |}) as Hk1.
  { rewrite Hse1. apply lookup_insert_eq. }
  destruct (begin_await _ _ _ _ _ _ _ Hwfs1 Hb2)
    as (_ & Hse2 & Hl2 & Hp2 & Hne2 & Hh2 & Hr2 & Hsame & Hold).
  rewrite Hk in Hse2, Hh2, Hold.
  assert (h2 = h) as -> by (symmetry; apply (Hold _ Hk1)).
  assert (history_of (st s1) (the_sessionId req1) =
          history_of (st s) (the_sessionId req1) ++ [newContent req1]) as Hh1'.
  { unfold history_of at 1. by rewrite Hk1. }
  rewrite Hh1', <- app_assoc in Hh2. simpl in Hh2.
  exists h, p1, p2.
  assert (inflight s2 = inflight s ++ [Pending h p1; Pending h p2]) as Hin.
  { rewrite Hin2, Hin1, <- app_assoc. done. }
  split; [exact Hin|].
  split. { rewrite Hsame by lia. congruence. }
  split. { congruence. }
  (* the first upstream call resolves *)
  simpl in Hs1. rewrite Hin in Hs1.
  rewrite lookup_app_r in Hs1 by lia. rewrite Nat.sub_diag in Hs1.
  simpl in Hs1.
  destruct (resume_resolved h (Resolved d1) (st s2) _ eq_refl)
    as (ra & Hra & _).
  rewrite Hra in Hs1. injection Hs1 as <- _.
  (* the second upstream call resolves *)
  simpl in Hs2. rewrite delete_middle in Hs2.
  rewrite lookup_app_r in Hs2 by lia. rewrite Nat.sub_diag in Hs2.
  simpl in Hs2.
  destruct (resume_resolved h (Resolved d2)
              (push h (assistant_turn (Resolved d1)) (st s2)) _ eq_refl)
    as (rb & Hrb & _).
  rewrite Hrb in Hs2. injection Hs2 as <- _. simpl.
  split; [|by rewrite delete_middle, app_nil_r].
  unfold history_of. simpl. rewrite Hse2, lookup_insert_eq. simpl.
  rewrite read_push_eq by (simpl; by rewrite length_alter).
  rewrite read_push_eq by done.
  rewrite Hh2, <- !app_assoc. done.
Qed.

Lemma overlapping_calls_interleave_witness :
  history_of (st (after overlapped)) "default" =
    [ newContent (say "Hello" None); newContent (say "Still there?" None);
      assistant_turn (answers "Hi"); assistant_turn (answers "Yes") ] ∧
  read 2 (st (after [Arrive 1 2 (say "Hello" None);
                     Arrive 3 4 (say "Still there?" None)])) =
    [ newContent (say "Hello" None); newContent (say "Still there?" None) ].
Proof.
  destruct (overlapping_calls_interleave [] boot
              1 2 (say "Hello" None) 3 4 (say "Still there?" None)
              (after [Arrive 1 2 (say "Hello" None)])
              (after [Arrive 1 2 (say "Hello" None);
                      Arrive 3 4 (say "Still there?" None)])
              (candidate [JObj [("text", JStr "Hi")]])
              (candidate [JObj [("text", JStr "Yes")]])
              (after [Arrive 1 2 (say "Hello" None);
                      Arrive 3 4 (say "Still there?" None);
                      Settle 0 (answers "Hi")])
              (Some (Reply200 (JStr "Hi")))
              (after overlapped)
              (Some (Reply200 (JStr "Yes")))
              eq_refl eq_refl eq_refl eq_refl eq_refl eq_refl)
    as (h & p1 & p2 & Hin & _ & Hp2 & Hh & _).
  assert (p2 = 2%nat) as -> by (vm_compute in Hin; congruence).
  split; [exact Hh | exact Hp2].
Defined.

(** ** Counting turns *)

(** X6: over calls for one session served one after the other, each of
    which gets as far as the upstream call, the session gains one turn per
    call (the user turn, kept even when the upstream call is rejected) plus
    one turn per upstream call that resolved (the assistant turn, pushed
    whatever the reply then is). *)
Theorem history_counts_upstream_calls evs s k calls σ' out :
  run evs boot = Some s →
  Forall (λ c, the_sessionId (c_req c) = k) calls →
  serve calls (st s) = (σ', out) →
  Forall (λ ro, is_Some ro.2) out →
  length (history_of σ' k) =
    (length (history_of (st s) k) + length calls +
     length (filter (λ c, rejects (c_outcome c) = false) calls))%nat.
Proof.
  intros Hrun. destruct (reachable_wf _ _ Hrun) as [Hwf _]. clear Hrun.
  revert Hwf. generalize (st s). clear s evs.
  revert σ' out. induction calls as [|c calls IH]; intros σ' out σ Hwf Hk; simpl.
  - intros [= <- _] _. lia.
  - unfold relay_call.
    destruct (relay _ _ _ _ σ) as [[σ1 r] pl] eqn:Hr.
    destruct (serve calls σ1) as [σ2 out'] eqn:Hs.
    intros [= <- <-] Hok.
    apply Forall_cons in Hk as [Hc Hk]. apply Forall_cons in Hok as [[pl' Hpl] Hok].
    simpl in Hpl. subst pl.
    destruct (relay_payload _ _ _ _ _ _ _ _ Hr) as (σb & h & p & Hb).
    destruct (relay_await _ _ _ (c_outcome c) _ _ _ _ Hwf Hb)
      as (σ2' & r2 & E & _ & _ & Hh).
    rewrite E in Hr. injection Hr as -> -> _. rewrite Hc in Hh.
    rewrite (IH σ2 out' σ1 (relay_wf_state _ _ _ _ _ _ _ _ Hwf E) Hk Hs Hok).
    rewrite Hh, !length_app. simpl.
    rewrite filter_cons.
    destruct (c_outcome c); simpl; lia.
Qed.

Lemma history_counts_upstream_calls_witness :
  length (history_of (serve failed_then_answered initial).1 "default") = 3%nat.
Proof.
  apply (history_counts_upstream_calls [] boot "default" failed_then_answered
           (serve failed_then_answered initial).1
           (serve failed_then_answered initial).2).
  - reflexivity.
  - repeat constructor.
  - reflexivity.
  - vm_compute. repeat constructor; eexists; reflexivity.
Defined.

(** ** Other sessions *)

(** X10: calls for other session ids, served one after the other with any
    outcome, leave a session exactly as it was: the same record (history
    array and [lastActive]) and the same turns. *)
Theorem other_sessions_are_untouched evs s k calls σ' out :
  run evs boot = Some s →
  Forall (λ c, the_sessionId (c_req c) ≠ k) calls →
  serve calls (st s) = (σ', out) →
  sessions σ' !! k = sessions (st s) !! k ∧
  history_of σ' k = history_of (st s) k.
Proof.
  intros Hrun. destruct (reachable_wf _ _ Hrun) as [Hwf _]. clear Hrun.
  revert Hwf. generalize (st s). clear s evs.
  revert σ' out. induction calls as [|c calls IH]; intros σ' out σ Hwf Hk; simpl.
  - by intros [= <- _].
  - unfold relay_call.
    destruct (relay _ _ _ _ σ) as [[σ1 r] pl] eqn:Hr.
    destruct (serve calls σ1) as [σ2 out'] eqn:Hs.
    intros [= <- _].
    apply Forall_cons in Hk as [Hc Hk].
    destruct (relay_other _ _ _ _ _ _ _ _ k Hwf Hr (not_eq_sym Hc)) as [E1 E2].
    destruct (IH σ2 out' σ1 (relay_wf_state _ _ _ _ _ _ _ _ Hwf Hr) Hk Hs)
      as [E3 E4].
    split; congruence.
Qed.

Lemma other_sessions_are_untouched_witness :
  sessions (serve calls_of_others greeted).1 !! "default" =
    sessions greeted !! "default" ∧
  history_of (serve calls_of_others greeted).1 "default" =
    history_of greeted "default".
Proof.
  apply (other_sessions_are_untouched [Arrive 1 2 (say "Hello" None)]
           {| st := greeted; inflight := [Pending 0 1] |}
           "default" calls_of_others
           (serve calls_of_others greeted).1 (serve calls_of_others greeted).2).
  - vm_compute. reflexivity.
  - repeat constructor; discriminate.
  - vm_compute. reflexivity.
Defined.

(** ** Session ids that name properties of [Object.prototype] *)

Lemma begin_sessions created now req σ :
  supplied req = true →
  sessions (handler_begin created now req σ).1 =
    sessions (getOrCreate created now (the_sessionId req) σ).1 ∧
  proto_lastActive (handler_begin created now req σ).1 =
    proto_lastActive (getOrCreate created now (the_sessionId req) σ).1.
Proof.
  intros Hs. rewrite begin_guard by done.
  by destruct (getOrCreate created now (the_sessionId req) σ) as [σ1 [h|]].
Qed.

Lemma inherited_slot σ k :
  sessions σ !! k = None → k ∈ Object_prototype_keys →
  get_slot σ k = SlotBuiltin k.
Proof.
  intros Hk Hin. unfold get_slot. rewrite Hk.
  by rewrite bool_decide_eq_true_2.
Qed.

Lemma getOrCreate_builtin created now k σ :
  sessions σ !! k = None → k ∈ Object_prototype_keys →
  getOrCreate created now k σ =
    (if String.eqb k "__proto__"
     then {| sessions := sessions σ; arrays := arrays σ;
             proto_lastActive := Some now |}
     else σ,
     None).
Proof.
  intros Hk Hin. pose proof (inherited_slot _ _ Hk Hin) as Hslot.
  unfold getOrCreate. rewrite Hslot. simpl.
  unfold set_lastActive. rewrite Hslot.
  f_equal. apply get_slot_not_own.
  by destruct (String.eqb k "__proto__").
Qed.

Lemma lastActive_slot σ :
  sessions σ !! "lastActive" = None →
  get_slot σ "lastActive" =
    match proto_lastActive σ with
    | Some n => SlotNumber n
    | None => SlotUndefined
    end.
Proof.
  intros Hk. unfold get_slot. rewrite Hk.
  assert (bool_decide ("lastActive" ∈ Object_prototype_keys) = false) as ->
    by (by vm_compute).
  done.
Qed.

Lemma getOrCreate_number created now k σ n :
  get_slot σ k = SlotNumber n → n ≠ 0 →
  getOrCreate created now k σ = (σ, None).
Proof.
  intros Hslot Hn. unfold getOrCreate. rewrite Hslot. simpl.
  destruct (n =? 0) eqn:Hz; [lia|]. simpl.
  unfold set_lastActive, get_history. rewrite Hslot. by rewrite Hslot.
Qed.

Lemma begin_no_inherited created now inc σ :
  no_inherited_session σ →
  no_inherited_session (handler_begin created now inc σ).1.
Proof.
  intros Hinv. destruct inc as [req | p f |].
  2: { unfold handler_begin.
       by destruct (negb (truthy p) && negb (bool_decide (is_Some f))). }
  2: { done. }
  destruct (supplied req) eqn:Hs.
  2: { by rewrite begin_rejected. }
  intros k Hk. destruct (begin_sessions created now req σ Hs) as [-> _].
  destruct (slot_cases σ (the_sessionId req)) as [[x Hx] | [[Hn Hf] | [Hn Ht]]].
  - rewrite (getOrCreate_present _ _ _ _ _ Hx). simpl.
    rewrite lookup_insert_ne; [by apply Hinv|].
    intros <-. rewrite (Hinv _ Hk) in Hx. done.
  - rewrite (getOrCreate_fresh _ _ _ _ Hf). simpl.
    rewrite lookup_insert_ne; [by apply Hinv|].
    intros <-. rewrite (inherited_slot _ _ Hn Hk) in Hf. done.
  - destruct (getOrCreate_inherited created now _ _ Hn Ht) as [pl ->].
    simpl. by apply Hinv.
Qed.

Lemma step_no_inherited ev s s' r :
  no_inherited_session (st s) → step ev s = Some (s', r) →
  no_inherited_session (st s').
Proof.
  intros Hinv. destruct ev as [created now req | i o | now]; simpl.
  - pose proof (begin_no_inherited created now req _ Hinv) as H.
    destruct (handler_begin created now req (st s)) as [σ [r1 | h p]];
      intros [= <- _]; done.
  - destruct (inflight s !! i) as [p|]; [|by intros [= <- _]].
    pose proof (resume_sessions (p_history p) o (st s)) as (Hs & _).
    destruct (handler_resume (p_history p) o (st s)) as [σ r'].
    intros [= <- _]. intros k Hk. simpl in *. rewrite Hs. by apply Hinv.
  - rewrite sweep_filter. intros [= <- _] k Hk. simpl.
    apply map_lookup_filter_None. left. by apply Hinv.
Qed.

Lemma reachable_no_inherited evs s :
  run evs boot = Some s → no_inherited_session (st s).
Proof.
  assert (∀ s0, no_inherited_session (st s0) → run evs s0 = Some s →
                no_inherited_session (st s)) as Hgen.
  { induction evs as [|ev evs IH]; intros s0 Hinv; simpl.
    - by intros [= <-].
    - destruct (step ev s0) as [[s1 r]|] eqn:Hstep; [|done].
      apply IH. by eapply step_no_inherited. }
  apply Hgen. intros k _. apply lookup_empty.
Qed.

(** X7: a session id that names a property of [Object.prototype]
    (["constructor"], ["toString"], ["__proto__"], ...) never gets a
    session.  In every state the server can reach the store has no session
    under such an id, and a call with such an id that passes the guard is
    answered 500 before the upstream is called, with the store and the heap
    as they were. *)
Theorem inherited_ids_are_never_served evs s created now req o :
  run evs boot = Some s →
  the_sessionId req ∈ Object_prototype_keys →
  supplied req = true →
  sessions (st s) !! the_sessionId req = None ∧
  ∃ σ',
    relay created now req o (st s) = (σ', Reply500 TypeError, None) ∧
    sessions σ' = sessions (st s) ∧
    arrays σ' = arrays (st s).
Proof.
  intros Hrun Hk Hs.
  pose proof (reachable_no_inherited _ _ Hrun _ Hk) as Hn.
  split; [done|].
  assert (slot_truthy (get_slot (st s) (the_sessionId req)) = true) as Ht.
  { by rewrite (inherited_slot _ _ Hn Hk). }
  destruct (begin_inherited created now req _ Hs Hn Ht) as [pl Hb].
  unfold relay. rewrite Hb. eauto.
Qed.

Lemma inherited_ids_are_never_served_witness :
  sessions greeted !! "toString" = None ∧
  ∃ σ',
    relay 3 4 (say "Hello" (Some "toString")) (answers "Hi") greeted =
      (σ', Reply500 TypeError, None) ∧
    sessions σ' = sessions greeted ∧
    arrays σ' = arrays greeted.
Proof.
  apply (inherited_ids_are_never_served [Arrive 1 2 (say "Hello" None)]
           {| st := greeted; inflight := [Pending 0 1] |}
           3 4 (say "Hello" (Some "toString")) (answers "Hi")).
  - vm_compute. reflexivity.
  - apply (bool_decide_unpack _). vm_compute. exact I.
  - reflexivity.
Defined.

(** X8: one call with the session id ["__proto__"] that passes the guard
    stores its clock reading as [Object.prototype.lastActive].  From then
    on [sessions["lastActive"]] is that number, so (the reading being
    non-zero) a call with the session id ["lastActive"] is answered 500
    without creating a session, although the same call would have reached
    the upstream before. *)
Theorem proto_call_disables_lastActive_id
    evs s created1 now1 req1 created2 now2 req2 :
  run evs boot = Some s →
  sessions (st s) !! "lastActive" = None →
  supplied req1 = true → the_sessionId req1 = "__proto__" → now1 ≠ 0 →
  supplied req2 = true → the_sessionId req2 = "lastActive" →
  let σ1 := (handler_begin created1 now1 req1 (st s)).1 in
  proto_lastActive σ1 = Some now1 ∧
  sessions σ1 = sessions (st s) ∧
  handler_begin created2 now2 req2 σ1 = (σ1, Done (Reply500 TypeError)) ∧
  (proto_lastActive (st s) = None →
   ∃ σ h p, handler_begin created2 now2 req2 (st s) = (σ, Await h p)).
Proof.
  intros Hrun Hla Hs1 Hk1 Hn1 Hs2 Hk2 σ1. subst σ1.
  assert ("__proto__" ∈ Object_prototype_keys) as Hin.
  { apply (bool_decide_unpack _). by vm_compute. }
  pose proof (reachable_no_inherited _ _ Hrun _ Hin) as Hp.
  assert (handler_begin created1 now1 req1 (st s) =
          ({| sessions := sessions (st s); arrays := arrays (st s);
              proto_lastActive := Some now1 |}, Done (Reply500 TypeError)))
    as Hb1.
  { rewrite begin_guard by done. rewrite Hk1.
    by rewrite (getOrCreate_builtin _ _ _ _ Hp Hin). }
  rewrite Hb1. simpl. split; [done|]. split; [done|]. split.
  - rewrite begin_guard by done. rewrite Hk2.
    rewrite (getOrCreate_number _ _ _ _ now1); [done | | done].
    by rewrite lastActive_slot.
  - intros Hnone.
    assert (slot_truthy (get_slot (st s) (the_sessionId req2)) = false) as Hf.
    { rewrite Hk2, lastActive_slot by done. by rewrite Hnone. }
    rewrite (begin_fresh _ _ _ _ Hs2 Hf). eauto.
Qed.

Lemma proto_call_disables_lastActive_id_witness :
  handler_begin 5 6 (say "Hello" (Some "lastActive"))
    (handler_begin 3 4 (say "Hello" (Some "__proto__")) greeted).1 =
    ((handler_begin 3 4 (say "Hello" (Some "__proto__")) greeted).1,
     Done (Reply500 TypeError)).
Proof.
  destruct (proto_call_disables_lastActive_id [Arrive 1 2 (say "Hello" None)]
              {| st := greeted; inflight := [Pending 0 1] |}
              3 4 (say "Hello" (Some "__proto__"))
              5 6 (say "Hello" (Some "lastActive"))
              ltac:(vm_compute; reflexivity) eq_refl eq_refl eq_refl
              ltac:(lia) eq_refl eq_refl)
    as (_ & _ & Hfail & _).
  exact Hfail.
Defined.

(** ** A resolved upstream call that the handler cannot answer from *)

(** X11: whenever the upstream call of a call resolves, whatever the body,
    the session gains the user turn and an assistant turn made of
    [aiResponse.parts].  The reply is 500 exactly when these parts, or the
    first of them, are [undefined] or [null] (line 97 throws after line 95
    has pushed); otherwise it is 200 with the [text] of the first part. *)
Theorem resolved_call_always_stores_assistant_turn
    evs s created now (req : request) data σ' r pl :
  run evs boot = Some s →
  relay created now req (Resolved data) (st s) = (σ', r, Some pl) →
  let k := the_sessionId req in
  let ps := aiResponse_parts (Resolved data) in
  history_of σ' k =
    history_of (st s) k ++
    [newContent req; {| role := assistant; parts := ps |}] ∧
  r = (if nullish ps || nullish (get_index0 ps)
       then Reply500 TypeError
       else Reply200 (get_prop (get_index0 ps) "text")).
Proof.
  intros Hrun H k ps. subst k ps.
  destruct (reachable_wf _ _ Hrun) as [Hwf _].
  destruct (relay_payload _ _ _ _ _ _ _ _ H) as (σb & h & p & Hb).
  destruct (relay_await _ _ _ (Resolved data) _ _ _ _ Hwf Hb)
    as (σ2 & r2 & E & Hr & _ & Hh).
  rewrite E in H. injection H as <- <- _.
  split; [exact Hh|].
  unfold handler_resume, callGemini in Hr. unfold aiResponse_parts, callGemini.
  cbv beta iota zeta in Hr. cbv beta iota.
  destruct (nullish (get_prop _ "parts")); simpl;
    [by injection Hr as _ <-|].
  destruct (nullish (get_index0 _)); by injection Hr as _ <-.
Qed.

Lemma resolved_call_always_stores_assistant_turn_witness :
  history_of (relay 1 2 (say "Hello" None) empty_parts initial).1.1 "default" =
    [newContent (say "Hello" None); {| role := assistant; parts := JArr [] |}] ∧
  (relay 1 2 (say "Hello" None) empty_parts initial).1.2 = Reply500 TypeError.
Proof.
  apply (resolved_call_always_stores_assistant_turn [] boot 1 2
           (say "Hello" None) (candidate [])
           (relay 1 2 (say "Hello" None) empty_parts initial).1.1
           (relay 1 2 (say "Hello" None) empty_parts initial).1.2
           [newContent (say "Hello" None)]);
    reflexivity.
Defined.

(** ** The user turn *)

(** X12: the request the upstream is given always ends with the user turn
    of the call, and that turn is never empty: it has one or two parts, the
    prompt first when there is one (as a [text] part), then the image when
    there is one (as an [inlineData] part with its MIME type and its bytes
    in base64). *)
Theorem upstream_payload_ends_with_user_turn evs s created now (req : request) o σ' r pl :
  run evs boot = Some s →
  relay created now req o (st s) = (σ', r, Some pl) →
  ∃ items,
    last pl = Some {| role := user; parts := JArr items |} ∧
    items =
      (if truthy (prompt req) then [JObj [("text", prompt req)]] else []) ++
      match file req with
      | Some image =>
          [JObj [("inlineData",
                  JObj [("mimeType", JStr (mimetype image));
                        ("data", JStr (base64 (buffer image)))])]]
      | None => []
      end ∧
    (1 ≤ length items ≤ 2)%nat.
Proof.
  intros Hrun H.
  destruct (reachable_wf _ _ Hrun) as [Hwf _].
  destruct (relay_payload _ _ _ _ _ _ _ _ H) as (σb & h & p & Hb).
  destruct (begin_await _ _ _ _ _ _ _ Hwf Hb) as (Hs & _).
  destruct (relay_await _ _ _ o _ _ _ _ Hwf Hb) as (σ2 & r2 & E & _).
  rewrite E in H. injection H as _ _ <-.
  eexists. split; [by rewrite last_snoc|]. split; [done|].
  unfold supplied in Hs. rewrite length_app.
  destruct (truthy (prompt req)); destruct (file req) as [image|];
    simpl in *; lia.
Qed.

Lemma upstream_payload_ends_with_user_turn_witness :
  ∃ items,
    last [newContent (say "Hello" None); assistant_turn (answers "Hi");
          newContent picture_only] =
      Some {| role := user; parts := JArr items |} ∧
    items =
      [JObj [("inlineData",
              JObj [("mimeType", JStr "image/png"); ("data", JStr "iVBO")])]] ∧
    (1 ≤ length items ≤ 2)%nat.
Proof.
  apply (upstream_payload_ends_with_user_turn
           [Arrive 1 2 (say "Hello" None); Settle 0 (answers "Hi")]
           (after [Arrive 1 2 (say "Hello" None); Settle 0 (answers "Hi")])
           3 4 picture_only TimedOut
           (relay 3 4 picture_only TimedOut
              (st (after [Arrive 1 2 (say "Hello" None);
                          Settle 0 (answers "Hi")]))).1.1
           (Reply500 (Error "Failed to get AI response"))).
  - vm_compute. reflexivity.
  - vm_compute. reflexivity.
Defined.
